(** * dotenvy: the reconciliation engine, its filter and the environment mapper

    A shallow embedding of the Go packages [internal/model], [internal/sync],
    [internal/auth], [internal/source] and [pkg/provider], followed by the
    properties of the diff/apply core.

    Conventions of the embedding.
    - A Go [string] is a [string]; a Go slice is a [list]; [append] adds at
      the end.
    - A Go [map[string]V] that is only read is a [gmap string V]; where the
      code can meet a nil map (the fields of a [Target] literal) it is an
      [option (gmap string V)], [None] standing for nil.
    - The comma-ok forms [v, ok := m[k]] return the zero value of [V] and
      [false] for a missing key.
    - A Go function returning [(T, error)] by [return x, nil] / [return nil, err]
      returns a [result T].
    - Store handles talk to a remote world of type [W]; every call of a store
      method is recorded, with what it returned, in a log that is threaded
      through the engine together with [W].
    - The Go [int] counters of a [SyncResult] are in [Z]; each is incremented
      at most once per element of a slice, whose length is itself a Go [int],
      so no wrap-around can occur. *)

From Stdlib Require Import ZArith Lia Ascii String.
From stdpp Require Import base option list strings gmap fin_maps.

(** ** Go errors *)

Module errors.

(** An [error] value: [errors.New msg], or [fmt.Errorf] with a [%w] verb, which
    keeps the wrapped error next to the formatted message. *)
Inductive error : Type :=
| errorString (msg : string)
| wrapError (msg : string) (err : error).

Definition New (text : string) : error := errorString text.

Definition Error (e : error) : string :=
  match e with
  | errorString msg => msg
  | wrapError msg _ => msg
  end.

Definition Unwrap (e : error) : option error :=
  match e with
  | errorString _ => None
  | wrapError _ err => Some err
  end.

(** [fmt.Errorf(prefix + "%w", err)]: the message is the prefix followed by
    the message of [err]. *)
Definition Errorf_w (prefix : string) (err : error) : error :=
  wrapError (prefix +:+ Error err) err.

End errors.

Export errors.

(** [return x, nil] and [return nil, err]. *)
Inductive result (A : Type) : Type :=
| Ok (a : A)
| Err (err : error).
Arguments Ok {A} a.
Arguments Err {A} err.

(** ** Go maps *)

Module gomap.

(** A map value that may be nil. *)
Definition t (V : Type) : Type := option (gmap string V).

Definition entries {V} (m : t V) : gmap string V := default ∅ m.

(** [v, ok := m[k]] without the zero value: [None] is [ok = false].  Reading
    a nil map finds nothing. *)
Definition index {V} (m : t V) (k : string) : option V := entries m !! k.

(** [len(m)]. *)
Definition len {V} (m : t V) : nat := size (entries m).

(** Go leaves the order in which [range] visits a map unspecified.  One
    execution of a [range] loop visits the entries in some order [kvs]: any
    arrangement of the entries of the map, each exactly once. *)
Definition range_order {V} (m : t V) (kvs : list (string * V)) : Prop :=
  kvs ≡ₚ map_to_list (entries m).

End gomap.

(** [v, ok := m[k]] for a map of strings: the zero value is the empty
    string. *)
Definition comma_ok (o : option string) : string * bool :=
  match o with
  | Some v => (v, true)
  | None => (""%string, false)
  end.

(** ** Package model *)

(** [interface{}] values as they occur in a target's configuration. *)
Inductive any : Type :=
| AnyString (s : string)
| AnyInt (z : Z)
| AnyBool (b : bool)
| AnyNil.

(** [x.(string)] in its comma-ok form, applied to [m[k]]. *)
Definition assert_string (o : option any) : string * bool :=
  match o with
  | Some (AnyString s) => (s, true)
  | _ => (""%string, false)
  end.

Module DiffType.

Inductive t : Type := DiffAdd | DiffRemove | DiffChange | DiffUnchanged | DiffUnknown.

#[global] Instance eq_dec : EqDecision t.
Proof. solve_decision. Defined.

(** [string(d)]. *)
Definition to_string (d : t) : string :=
  match d with
  | DiffAdd => "add"
  | DiffRemove => "remove"
  | DiffChange => "change"
  | DiffUnchanged => "unchanged"
  | DiffUnknown => "unknown"
  end.

(** The classifications as keys of a map. *)
Definition code (d : t) : nat :=
  match d with
  | DiffAdd => 0
  | DiffRemove => 1
  | DiffChange => 2
  | DiffUnchanged => 3
  | DiffUnknown => 4
  end.

Definition of_code (n : nat) : t :=
  match n with
  | 0 => DiffAdd
  | 1 => DiffRemove
  | 2 => DiffChange
  | 3 => DiffUnchanged
  | _ => DiffUnknown
  end.

#[global] Instance countable : Countable t.
Proof. apply (inj_countable' code of_code). by intros []. Defined.

End DiffType.

Export DiffType (DiffAdd, DiffRemove, DiffChange, DiffUnchanged, DiffUnknown).

Module SecretValue.

Record t : Type := mk {
  Name : string;
  Value : string;
  Environment : string
}.

End SecretValue.

Module SecretDiff.

Record t : Type := mk {
  Name : string;
  Type_ : DiffType.t;
  OldValue : string;
  NewValue : string;
  Environment : string;
  Sensitive : bool
}.

End SecretDiff.

Module TargetDiff.

Record t : Type := mk {
  TargetName : string;
  TargetType : string;
  Project : string;
  Diffs : list SecretDiff.t
}.

(** [diff.Diffs = append(diff.Diffs, d)]. *)
Definition append_diff (td : t) (d : SecretDiff.t) : t :=
  mk (TargetName td) (TargetType td) (Project td) (Diffs td ++ [d]).

Fixpoint has_changes (ds : list SecretDiff.t) : bool :=
  match ds with
  | [] => false
  | d :: ds' =>
      if negb (bool_decide (SecretDiff.Type_ d = DiffUnchanged)) then true
      else has_changes ds'
  end.

Definition HasChanges (td : t) : bool := has_changes (Diffs td).

(** [counts[d.Type]++] over the entries; a missing key reads as 0. *)
Definition CountByType (td : t) : gmap DiffType.t Z :=
  foldl (fun counts d =>
           <[SecretDiff.Type_ d :=
               (default 0 (counts !! SecretDiff.Type_ d) + 1)%Z]> counts)
        ∅ (Diffs td).

(** [grouped[d.Environment] = append(grouped[d.Environment], d)]; a missing
    key reads as the nil slice. *)
Definition GroupByEnvironment (td : t) : gmap string (list SecretDiff.t) :=
  foldl (fun grouped d =>
           <[SecretDiff.Environment d :=
               default [] (grouped !! SecretDiff.Environment d) ++ [d]]> grouped)
        ∅ (Diffs td).

End TargetDiff.

(** [SyncResult] and [TargetSyncResult] of package model. *)
Module SecretSyncResult.

Record t : Type := mk {
  SecretName : string;
  Environment : string;
  Success : bool;
  Error_ : option error
}.

End SecretSyncResult.

Module TargetSyncResult.

Record t : Type := mk {
  TargetName : string;
  Results : list SecretSyncResult.t
}.

Definition SuccessCount (tsr : t) : Z :=
  foldl (fun count r => if SecretSyncResult.Success r then (count + 1)%Z else count)
        0%Z (Results tsr).

Definition FailureCount (tsr : t) : Z :=
  foldl (fun count r =>
           if negb (SecretSyncResult.Success r) then (count + 1)%Z else count)
        0%Z (Results tsr).

End TargetSyncResult.

(** [SecretSet]: a set made by [NewSecretSet], whose map is not nil. *)
Module SecretSet.

Record t : Type := mk {
  Secrets : gmap string string
}.

Definition NewSecretSet : t := mk ∅.

Definition Set_ (s : t) (name value : string) : t :=
  mk (<[name := value]> (Secrets s)).

Definition Get (s : t) (name : string) : string * bool :=
  comma_ok (Secrets s !! name).

(** [Names] and [ToSecretValues] in an execution whose [range s.Secrets]
    visits the entries in the order [kvs]. *)
Definition Names (kvs : list (string * string)) (s : t) : list string :=
  foldl (fun names kv => names ++ [kv.1]) [] kvs.

Definition Len (s : t) : nat := size (Secrets s).

Definition ToSecretValues (kvs : list (string * string)) (s : t) (env : string)
  : list SecretValue.t :=
  foldl (fun values kv => values ++ [SecretValue.mk kv.1 kv.2 env]) [] kvs.

End SecretSet.

Module SecretsFilter.

Record t : Type := mk {
  Include : list string;
  Exclude : list string
}.

End SecretsFilter.

Module Target.

Record t : Type := mk {
  Name : string;
  Type_ : string;
  Mapping : gomap.t string;
  Secrets : SecretsFilter.t;
  Config : gomap.t any
}.

Definition GetProject (t : t) : string :=
  let cfg k := assert_string (gomap.index (Config t) k) in
  if (cfg "project").2 then (cfg "project").1
  else if (cfg "deployment").2 then (cfg "deployment").1
  else if (cfg "service_id").2 then (cfg "service_id").1
  else if (cfg "project_ref").2 then (cfg "project_ref").1
  else if (cfg "app_name").2 then (cfg "app_name").1
  else if (cfg "account_id").2 then (cfg "account_id").1
  else "".

(** The body of [MapToRemote] over the entries in the order [kvs] in which
    the [range] loop visits them. *)
Definition MapToRemote_loop (kvs : list (string * string)) (localEnv : string)
  : list string :=
  foldl (fun remotes kv =>
           if bool_decide (kv.2 = localEnv) then remotes ++ [kv.1] else remotes)
        [] kvs.

(** [t.MapToRemote(localEnv)] in an execution whose [range t.Mapping] visits
    the entries in the order [kvs] (see [gomap.range_order]). *)
Definition MapToRemote (kvs : list (string * string)) (t : t)
    (localEnv : string) : list string :=
  MapToRemote_loop kvs localEnv.

Definition MapToLocal (t : t) (remoteEnv : string) : string :=
  let '(local, ok) := comma_ok (gomap.index (Mapping t) remoteEnv) in
  if ok then local
  else
    let '(local, ok) := comma_ok (gomap.index (Mapping t) "default") in
    if ok then local
    else "".

Definition GetToken (t : t) : string :=
  let cfg k := assert_string (gomap.index (Config t) k) in
  if (cfg "token").2 then (cfg "token").1
  else if (cfg "deploy_key").2 then (cfg "deploy_key").1
  else "".

(** One iteration of the loop of [LocalEnvironments] on the pair
    [(seen, envs)]. *)
Definition LocalEnvironments_step (st : gmap string bool * list string)
    (kv : string * string) : gmap string bool * list string :=
  if negb (default false (st.1 !! kv.2))
  then (<[kv.2 := true]> st.1, st.2 ++ [kv.2])
  else st.

(** [t.LocalEnvironments()] and [t.RemoteEnvironments()] in an execution
    whose [range t.Mapping] visits the entries in the order [kvs]. *)
Definition LocalEnvironments (kvs : list (string * string)) (t : t) : list string :=
  (foldl LocalEnvironments_step (∅, []) kvs).2.

Definition RemoteEnvironments (kvs : list (string * string)) (t : t) : list string :=
  foldl (fun envs kv => envs ++ [kv.1]) [] kvs.

End Target.

(** ** A glob matcher for the examples

    [path/filepath.Match] belongs to the Go standard library, not to this
    repository; the filter is parametrised by it.  [glob.Match] is the
    matcher used to run the examples: literal characters, [*] (any run of
    characters other than the separator) and [?] (one character other than
    the separator).  It never reports a malformed pattern. *)

Module glob.

Definition is_sep (c : ascii) : bool := Ascii.eqb c "/".

Fixpoint matches (pattern name : string) {struct pattern} : bool :=
  match pattern with
  | EmptyString => match name with EmptyString => true | _ => false end
  | String p pattern' =>
      if Ascii.eqb p "*" then
        (fix star (s : string) : bool :=
           if matches pattern' s then true
           else match s with
                | EmptyString => false
                | String c s' => if is_sep c then false else star s'
                end) name
      else
        match name with
        | EmptyString => false
        | String c name' =>
            if Ascii.eqb p "?" then negb (is_sep c) && matches pattern' name'
            else Ascii.eqb p c && matches pattern' name'
        end
  end.

Definition Match (pattern name : string) : bool * option error :=
  (matches pattern name, None).

End glob.

(** ** Package sync: the filter *)

Module filter.

Section Filter.

(** [filepath.Match(pattern, name)], returning [(matched, err)]. *)
Variable Match : string -> string -> bool * option error.

Fixpoint matchesAny (name : string) (patterns : list string) : bool :=
  match patterns with
  | [] => false
  | pattern :: patterns' =>
      if (Match pattern name).1 then true else matchesAny name patterns'
  end.

Definition ShouldSyncSecret (secretName : string) (target : Target.t) : bool :=
  if (0 <? length (SecretsFilter.Include (Target.Secrets target)))%nat
     && negb (matchesAny secretName (SecretsFilter.Include (Target.Secrets target)))
  then false
  else if matchesAny secretName (SecretsFilter.Exclude (Target.Secrets target))
  then false
  else true.

Definition FilterSecretNames (names : list string) (target : Target.t)
  : list string :=
  foldl (fun filtered name =>
           if ShouldSyncSecret name target then filtered ++ [name] else filtered)
        [] names.

End Filter.

End filter.

(** ** Package provider *)

Module provider.

(** A store handle ([provider.SyncTarget]: [Reader] and [Writer]).  [W] is the
    state of the remote platform the handle talks to; a method takes the
    state before the call and returns what the Go method returns together
    with the state after it.  [List] returns [(secrets, err)]. *)
Record SyncTarget (W : Type) : Type := mkSyncTarget {
  List : string -> W -> (list SecretValue.t * option error) * W;
  Set_ : string -> string -> string -> W -> option error * W;
  Delete : string -> string -> W -> option error * W
}.
Arguments mkSyncTarget {W} _ _ _.
Arguments List {W} _ _ _.
Arguments Set_ {W} _ _ _ _ _.
Arguments Delete {W} _ _ _ _.

(** The [Writer] view of a handle. *)
Record Writer (W : Type) : Type := mkWriter {
  wSet : string -> string -> string -> W -> option error * W;
  wDelete : string -> string -> W -> option error * W
}.
Arguments mkWriter {W} _ _.
Arguments wSet {W} _ _ _ _ _.
Arguments wDelete {W} _ _ _ _.

(** [prov.(provider.Writer)]: the method set of [SyncTarget] contains that of
    [Writer], so the assertion finds the two methods of the same handle. *)
Definition as_Writer {W} (prov : SyncTarget W) : option (Writer W) :=
  Some (mkWriter (Set_ prov) (Delete prov)).

Definition Factory (W : Type) : Type := gomap.t any -> result (SyncTarget W).

Record ProviderInfo (W : Type) : Type := mkProviderInfo {
  Name : string;
  DisplayName : string;
  Factory_ : Factory W;
  EnvVar : string;
  WriteOnly : bool;
  SdkAuth : bool;
  Beta : bool
}.
Arguments mkProviderInfo {W} _ _ _ _ _ _ _.
Arguments Name {W} _.
Arguments DisplayName {W} _.
Arguments Factory_ {W} _.
Arguments EnvVar {W} _.
Arguments WriteOnly {W} _.
Arguments SdkAuth {W} _.
Arguments Beta {W} _.

Section Registry.

Context {W : Type}.

(** The process-wide registry, filled by the [init] functions of the
    provider packages before any engine call. *)
Variable registry : gmap string (ProviderInfo W).

(** [Get(name)]: [None] is [ok = false]; the fields of the zero
    [ProviderInfo] returned then are read through [info_*] below. *)
Definition Get (name : string) : option (ProviderInfo W) := registry !! name.

Definition info_EnvVar (info : option (ProviderInfo W)) : string :=
  from_option EnvVar ""%string info.
Definition info_WriteOnly (info : option (ProviderInfo W)) : bool :=
  from_option WriteOnly false info.
Definition info_SdkAuth (info : option (ProviderInfo W)) : bool :=
  from_option SdkAuth false info.

Definition Create (name : string) (config : gomap.t any)
  : result (SyncTarget W) :=
  match Get name with
  | None => Err (errorString ("unknown provider: " +:+ name))
  | Some info => Factory_ info config
  end.

Definition IsWriteOnly (providerType : string) : bool :=
  match Get providerType with
  | None => false
  | Some info => WriteOnly info
  end.

Definition EnvVarFor (providerType : string) : string :=
  match Get providerType with
  | None => ""%string
  | Some info => EnvVar info
  end.

End Registry.

End provider.

(** ** Package auth *)

Module auth.

Definition ErrCredentialsNotFound : error := errors.New "credentials not found".

Record Credentials : Type := mkCredentials {
  Token : string;
  Source : string
}.

Fixpoint firstToken (config : gomap.t any) (keys : list string) : string :=
  match keys with
  | [] => ""%string
  | key :: keys' =>
      let '(val, ok) := assert_string (gomap.index config key) in
      if ok && negb (bool_decide (val = ""%string)) then val
      else firstToken config keys'
  end.

Definition getTokenFromConfig (config : gomap.t any) : string :=
  firstToken config ["token"; "deploy_key"; "api_key"]%string.

Section Resolve.

Context {W : Type}.
Variable registry : gmap string (provider.ProviderInfo W).
(** [os.Getenv] and [os.ExpandEnv] on the environment of the process. *)
Variable Getenv : string -> string.
Variable ExpandEnv : string -> string.

Definition ResolveCredentials (providerType : string) (config : gomap.t any)
  : result Credentials :=
  let envVar := provider.EnvVarFor registry providerType in
  if negb (bool_decide (envVar = ""%string))
     && negb (bool_decide (Getenv envVar = ""%string))
  then Ok (mkCredentials (Getenv envVar) "env")
  else
    let token := getTokenFromConfig config in
    if negb (bool_decide (token = ""%string))
    then Ok (mkCredentials (ExpandEnv token) "config")
    else Err ErrCredentialsNotFound.

Record AuthStatus : Type := mkAuthStatus {
  asTargetName : string;
  asProviderType : string;
  Authenticated : bool;
  asSource : string;
  asEnvVar : string;
  asError : option error
}.

Definition CheckAuth (targetName providerType : string) (config : gomap.t any)
  : AuthStatus :=
  let envVar := provider.EnvVarFor registry providerType in
  let provInfo := provider.Get registry providerType in
  if provider.info_SdkAuth provInfo
  then mkAuthStatus targetName providerType true "sdk" envVar None
  else
    match ResolveCredentials providerType config with
    | Err err => mkAuthStatus targetName providerType false "" envVar (Some err)
    | Ok creds => mkAuthStatus targetName providerType true (Source creds) envVar None
    end.

End Resolve.

End auth.

(** ** Package source *)

Module source.

(** The [Source] interface.  [GetAll] returns a map that the engine only
    reads (a nil map, as [FileSource] returns for an unreadable file, reads
    like an empty one). *)
Record Source : Type := mkSource {
  Get : string -> string;
  GetAll : list string -> gmap string string;
  Name : string
}.

(** A source over a loaded table of values: [FileSource] once its file is
    read, and the [mockSource] of the engine's tests. *)
Definition table_GetAll (values : gmap string string) (names : list string)
  : gmap string string :=
  foldl (fun res name =>
           match values !! name with
           | Some val => <[name := val]> res
           | None => res
           end) ∅ names.

Definition tableSource (name : string) (values : gmap string string) : Source :=
  mkSource (fun k => (comma_ok (values !! k)).1) (table_GetAll values) name.

(** [EnvSource]: the variables of the process environment; an empty
    variable is left out of [GetAll]. *)
Definition env_GetAll (Getenv : string -> string) (names : list string)
  : gmap string string :=
  foldl (fun res name =>
           if negb (bool_decide (Getenv name = ""%string))
           then <[name := Getenv name]> res
           else res) ∅ names.

Definition EnvSource (Getenv : string -> string) : Source :=
  mkSource Getenv (env_GetAll Getenv) "environment".

(** [strings.Join]. *)
Fixpoint Join (elems : list string) (sep : string) : string :=
  match elems with
  | [] => ""%string
  | [x] => x
  | x :: rest => x +:+ sep +:+ Join rest sep
  end.

(** [CombinedSource.Get]: the first non-empty value, in the order of the
    sources. *)
Fixpoint combined_Get (sources : list Source) (name : string) : string :=
  match sources with
  | [] => ""%string
  | src :: sources' =>
      if negb (bool_decide (Get src name = ""%string)) then Get src name
      else combined_Get sources' name
  end.

(** [CombinedSource.GetAll]: the sources are visited from the last to the
    first, each one writing all its entries into [result]. *)
Definition combined_GetAll (sources : list Source) (names : list string)
  : gmap string string :=
  foldl (fun result src =>
           map_fold (fun name val res => <[name := val]> res) result
             (GetAll src names))
        ∅ (reverse sources).

Definition CombinedSource (sources : list Source) : Source :=
  mkSource (combined_Get sources) (combined_GetAll sources)
    (Join (Name <$> sources) " + ").

(** The bytes [0x22] (double quote), [0x09] and [0x0a]. *)
Definition dquote : ascii := "034"%char.
Definition tab : ascii := "009"%char.
Definition newline : ascii := "010"%char.

Definition unquote (s : string) : string :=
  if (2 <=? String.length s)%nat then
    match String.get 0 s, String.get (String.length s - 1) s with
    | Some first, Some last =>
        if (Ascii.eqb first dquote && Ascii.eqb last dquote)
           || (Ascii.eqb first "'" && Ascii.eqb last "'")
        then String.substring 1 (String.length s - 2) s
        else s
    | _, _ => s
    end
  else s.

(** [strings.ContainsAny(s, chars)] for [chars] made of ASCII characters:
    some byte of [s] is one of them. *)
Fixpoint ContainsAny (s : string) (chars : list ascii) : bool :=
  match s with
  | EmptyString => false
  | String c s' => existsb (Ascii.eqb c) chars || ContainsAny s' chars
  end.

(** [strings.ReplaceAll(s, old, new)] for [old] a single ASCII character. *)
Fixpoint ReplaceAll (s : string) (old : ascii) (new : string) : string :=
  match s with
  | EmptyString => EmptyString
  | String c s' =>
      if Ascii.eqb c old then new +:+ ReplaceAll s' old new
      else String c (ReplaceAll s' old new)
  end.

Definition quoteIfNeeded (s : string) : string :=
  if bool_decide (s = ""%string)
     || ContainsAny s [" "%char; tab; newline; dquote; "'"%char; "\"%char; "$"%char]
  then
    let s := ReplaceAll s "\" (String "\" (String "\" EmptyString)) in
    let s := ReplaceAll s dquote (String "\" (String dquote EmptyString)) in
    String dquote (s +:+ String dquote EmptyString)
  else s.

End source.

(** ** Package sync: the engine *)

Module Engine.

(** [SyncResult] of package sync. *)
Record SyncResult : Type := mkSyncResult {
  TargetName : string;
  Environment : string;
  Added : Z;
  Changed : Z;
  Unchanged : Z;
  Unknown : Z;
  Failed : Z;
  Errors : list error
}.

Definition incAdded (r : SyncResult) : SyncResult :=
  mkSyncResult (TargetName r) (Environment r) (Added r + 1) (Changed r)
    (Unchanged r) (Unknown r) (Failed r) (Errors r).
Definition incChanged (r : SyncResult) : SyncResult :=
  mkSyncResult (TargetName r) (Environment r) (Added r) (Changed r + 1)
    (Unchanged r) (Unknown r) (Failed r) (Errors r).
Definition incUnchanged (r : SyncResult) : SyncResult :=
  mkSyncResult (TargetName r) (Environment r) (Added r) (Changed r)
    (Unchanged r + 1) (Unknown r) (Failed r) (Errors r).
Definition incUnknown (r : SyncResult) : SyncResult :=
  mkSyncResult (TargetName r) (Environment r) (Added r) (Changed r)
    (Unchanged r) (Unknown r + 1) (Failed r) (Errors r).
Definition incFailed (r : SyncResult) : SyncResult :=
  mkSyncResult (TargetName r) (Environment r) (Added r) (Changed r)
    (Unchanged r) (Unknown r) (Failed r + 1) (Errors r).
Definition appendError (r : SyncResult) (e : error) : SyncResult :=
  mkSyncResult (TargetName r) (Environment r) (Added r) (Changed r)
    (Unchanged r) (Unknown r) (Failed r) (Errors r ++ [e]).

Record ProgressEvent : Type := mkProgressEvent {
  Phase : string;
  pTargetName : string;
  SecretName : string;
  pEnvironment : string;
  Action : string;
  Success : bool;
  Error_ : option error;
  Message : string
}.

(** One call of a store method, with the arguments it was given and the
    error it returned ([None] for nil). *)
Inductive Call : Type :=
| CallList (environment : string) (err : option error)
| CallSet (name value environment : string) (err : option error)
| CallDelete (name environment : string) (err : option error).

Definition is_write (c : Call) : bool :=
  match c with
  | CallList _ _ => false
  | CallSet _ _ _ _ => true
  | CallDelete _ _ _ => true
  end.

Definition is_delete (c : Call) : bool :=
  match c with
  | CallDelete _ _ _ => true
  | _ => false
  end.

Definition set_failed (c : Call) : bool :=
  match c with
  | CallSet _ _ _ (Some _) => true
  | _ => false
  end.

Section Engine.

(** [W]: the state of the remote platform.  [U]: the state of the caller
    that a progress callback updates (a callback has no handle on the
    store). *)
Context {W U : Type}.

Record World : Type := mkWorld {
  remote : W;
  ui : U;
  calls : list Call
}.

(** Computations of the engine: state passing over [World]. *)
Definition M (A : Type) : Type := World -> A * World.

Definition ret {A} (a : A) : M A := fun w => (a, w).

Definition bind {A B} (c : M A) (k : A -> M B) : M B :=
  fun w => let '(a, w') := c w in k a w'.

Notation "'do' x <- c ; k" := (bind c (fun x => k))
  (at level 10, x name, c at level 100, k at level 200).

Fixpoint foldM {A B} (f : A -> B -> M A) (a : A) (l : list B) : M A :=
  match l with
  | [] => ret a
  | b :: l' => do a' <- f a b; foldM f a' l'
  end.

(** [prov.List(ctx, environment)]. *)
Definition call_List (prov : provider.SyncTarget W) (environment : string)
  : M (list SecretValue.t * option error) :=
  fun w =>
    let '(r, s) := provider.List prov environment (remote w) in
    (r, mkWorld s (ui w) (calls w ++ [CallList environment r.2])).

(** [writer.Set(ctx, name, value, environment)]. *)
Definition call_Set (writer : provider.Writer W) (name value environment : string)
  : M (option error) :=
  fun w =>
    let '(r, s) := provider.wSet writer name value environment (remote w) in
    (r, mkWorld s (ui w) (calls w ++ [CallSet name value environment r])).

(** [writer.Delete(ctx, name, environment)]. *)
Definition call_Delete (writer : provider.Writer W) (name environment : string)
  : M (option error) :=
  fun w =>
    let '(r, s) := provider.wDelete writer name environment (remote w) in
    (r, mkWorld s (ui w) (calls w ++ [CallDelete name environment r])).

Definition ProgressCallback : Type := ProgressEvent -> U -> U.

Record SyncOptions : Type := mkSyncOptions {
  DryRun : bool;
  oEnvironment : string;
  Progress : option ProgressCallback
}.

(** [if opts.Progress != nil { opts.Progress(event) }]. *)
Definition progress (opts : SyncOptions) (event : ProgressEvent) : M unit :=
  fun w =>
    match Progress opts with
    | Some cb => (tt, mkWorld (remote w) (cb event (ui w)) (calls w))
    | None => (tt, w)
    end.

Variable Match : string -> string -> bool * option error.
Variable registry : gmap string (provider.ProviderInfo W).
Variable Getenv : string -> string.
Variable ExpandEnv : string -> string.

Definition createProvider (target : Target.t) : result (provider.SyncTarget W) :=
  let provInfo := provider.Get registry (Target.Type_ target) in
  if provider.info_SdkAuth provInfo
     || bool_decide (provider.info_EnvVar provInfo = ""%string)
  then provider.Create registry (Target.Type_ target) (Target.Config target)
  else
    match auth.ResolveCredentials registry Getenv ExpandEnv
            (Target.Type_ target) (Target.Config target) with
    | Err err =>
        Err (Errorf_w ("authentication failed for " +:+ Target.Name target +:+ ": ") err)
    | Ok creds =>
        let config := map_fold (fun k v c => <[k := v]> c) ∅
                        (gomap.entries (Target.Config target)) in
        let config := <["_resolved_token"%string := AnyString (auth.Token creds)]> config in
        provider.Create registry (Target.Type_ target) (Some config)
    end.

(** [remoteMap]: later entries of the listing overwrite earlier ones. *)
Definition build_remoteMap (remoteSecrets : list SecretValue.t)
  : gmap string string :=
  foldl (fun m s => <[SecretValue.Name s := SecretValue.Value s]> m) ∅ remoteSecrets.

(** The classification of lines 96-108 for a name that has a non-empty local
    value. *)
Definition classify (writeOnly hasRemote : bool) (localValue remoteValue : string)
  : DiffType.t :=
  if writeOnly && hasRemote then DiffUnknown
  else if negb hasRemote then DiffAdd
  else if negb (bool_decide (localValue = remoteValue)) then DiffChange
  else DiffUnchanged.

(** One iteration of the loop of [Preview] over [filteredNames]. *)
Definition preview_step (sourceValues remoteMap : gmap string string)
    (writeOnly : bool) (remoteEnv : string)
    (diff : TargetDiff.t) (name : string) : TargetDiff.t :=
  let '(localValue, hasLocal) := comma_ok (sourceValues !! name) in
  let '(remoteValue, hasRemote) := comma_ok (remoteMap !! name) in
  if negb hasLocal || bool_decide (localValue = ""%string) then diff
  else
    let diffType := classify writeOnly hasRemote localValue remoteValue in
    TargetDiff.append_diff diff
      (SecretDiff.mk name diffType remoteValue localValue remoteEnv false).

Definition Preview (secretNames : list string) (src : source.Source)
    (target : Target.t) (remoteEnv : string) : M (result TargetDiff.t) :=
  match createProvider target with
  | Err err => ret (Err err)
  | Ok prov =>
      let filteredNames := filter.FilterSecretNames Match secretNames target in
      let sourceValues := source.GetAll src filteredNames in
      do listed <- call_List prov remoteEnv;
      match listed.2 with
      | Some err =>
          ret (Err (Errorf_w ("failed to list secrets from "
                              +:+ Target.Name target +:+ ": ") err))
      | None =>
          let remoteSecrets := listed.1 in
          let provInfo := provider.Get registry (Target.Type_ target) in
          let writeOnly := provider.info_WriteOnly provInfo in
          let remoteMap := build_remoteMap remoteSecrets in
          let diff := TargetDiff.mk (Target.Name target) (Target.Type_ target)
                        (Target.GetProject target) [] in
          ret (Ok (foldl (preview_step sourceValues remoteMap writeOnly remoteEnv)
                         diff filteredNames))
      end
  end.

(** One iteration of the dry-run tally. *)
Definition tally_step (result : SyncResult) (d : SecretDiff.t) : SyncResult :=
  match SecretDiff.Type_ d with
  | DiffAdd => incAdded result
  | DiffChange => incChanged result
  | DiffUnchanged => incUnchanged result
  | DiffUnknown => incUnknown result
  | DiffRemove => result
  end.

(** One iteration of the apply loop. *)
Definition sync_step (target : Target.t) (remoteEnv : string) (opts : SyncOptions)
    (writer : provider.Writer W) (result : SyncResult) (d : SecretDiff.t)
  : M SyncResult :=
  if bool_decide (SecretDiff.Type_ d = DiffUnchanged) then ret (incUnchanged result)
  else
    do _ <- progress opts
              (mkProgressEvent "sync" (Target.Name target) (SecretDiff.Name d)
                 remoteEnv (DiffType.to_string (SecretDiff.Type_ d)) false None
                 ("Syncing " +:+ SecretDiff.Name d));
    do syncErr <-
       match SecretDiff.Type_ d with
       | DiffAdd | DiffChange | DiffUnknown =>
           call_Set writer (SecretDiff.Name d) (SecretDiff.NewValue d) remoteEnv
       | _ => ret None
       end;
    match syncErr with
    | Some err =>
        let result := incFailed result in
        let result := appendError result
                        (Errorf_w (SecretDiff.Name d +:+ ": ") err) in
        do _ <- progress opts
                  (mkProgressEvent "sync" (Target.Name target) (SecretDiff.Name d)
                     remoteEnv "" false (Some err) "");
        ret result
    | None =>
        let result :=
          match SecretDiff.Type_ d with
          | DiffAdd => incAdded result
          | DiffUnknown => incUnknown result
          | _ => incChanged result
          end in
        do _ <- progress opts
                  (mkProgressEvent "sync" (Target.Name target) (SecretDiff.Name d)
                     remoteEnv "" true None "");
        ret result
    end.

Definition Sync (secretNames : list string) (src : source.Source)
    (target : Target.t) (remoteEnv : string) (opts : SyncOptions)
  : M (result SyncResult) :=
  let result := mkSyncResult (Target.Name target) remoteEnv 0 0 0 0 0 [] in
  do previewed <- Preview secretNames src target remoteEnv;
  match previewed with
  | Err err => ret (Err err)
  | Ok diff =>
      if DryRun opts then
        ret (Ok (foldl tally_step result (TargetDiff.Diffs diff)))
      else
        match createProvider target with
        | Err err => ret (Err err)
        | Ok prov =>
            match provider.as_Writer prov with
            | None =>
                ret (Err (errorString ("provider " +:+ Target.Type_ target
                                       +:+ " does not support writing")))
            | Some writer =>
                do result <- foldM (sync_step target remoteEnv opts writer)
                               result (TargetDiff.Diffs diff);
                ret (Ok result)
            end
        end
  end.

Definition CheckAuth (target : Target.t) : auth.AuthStatus :=
  auth.CheckAuth registry Getenv ExpandEnv (Target.Name target)
    (Target.Type_ target) (Target.Config target).

Definition Pull (target : Target.t) (remoteEnv : string)
  : M (result (gmap string string)) :=
  match createProvider target with
  | Err err => ret (Err err)
  | Ok prov =>
      do listed <- call_List prov remoteEnv;
      match listed.2 with
      | Some err => ret (Err (Errorf_w "failed to list secrets: " err))
      | None =>
          ret (Ok (foldl (fun result s =>
                            <[SecretValue.Name s := SecretValue.Value s]> result)
                         ∅ listed.1))
      end
  end.

End Engine.

End Engine.

(** ** Package config *)

(** A call that returns, or panics (a nil pointer is dereferenced). *)
Inductive outcome (A : Type) : Type :=
| Returns (a : A)
| Panics.
Arguments Returns {A} a.
Arguments Panics {A}.

Module config.

Definition CurrentVersion : Z := 2.

Record TargetDef : Type := mkTargetDef {
  Type_ : string;
  Project : string;
  Deployment : string;
  ProjectID : string;
  ServiceID : string;
  ProjectRef : string;
  AccountID : string;
  AppName : string;
  SiteID : string;
  Path : string;
  Region : string;
  Prefix : string;
  Profile : string;
  SecretName : string;
  Mapping : gomap.t string;
  Include : list string;
  Exclude : list string;
  Token : string;
  DeployKey : string
}.

(** [Targets] holds pointers: [None] is a nil [*TargetDef]. *)
Record t : Type := mk {
  Version : Z;
  APIKey : string;
  APIURL : string;
  Secrets : list string;
  Targets : gomap.t (option TargetDef)
}.

Definition NewConfig : t := mk CurrentVersion "" "" [] (Some ∅).

Definition GetSecretNames (c : t) : list string := Secrets c.

(** [if val != "" { t.Config[key] = val }]. *)
Definition set_field (key val : string) (cfg : gmap string any) : gmap string any :=
  if negb (bool_decide (val = ""%string)) then <[key := AnyString val]> cfg else cfg.

(** The provider-specific fields copied into [t.Config], in the order of
    the source; [GetTargets] and [GetTarget] hold the same statements. *)
Definition copy_config (def : TargetDef) : gmap string any :=
  let cfg := ∅ in
  let cfg := set_field "project" (Project def) cfg in
  let cfg := set_field "deployment" (Deployment def) cfg in
  let cfg := set_field "project_id" (ProjectID def) cfg in
  let cfg := set_field "service_id" (ServiceID def) cfg in
  let cfg := set_field "project_ref" (ProjectRef def) cfg in
  let cfg := set_field "account_id" (AccountID def) cfg in
  let cfg := set_field "app_name" (AppName def) cfg in
  let cfg := set_field "site_id" (SiteID def) cfg in
  let cfg := set_field "path" (Path def) cfg in
  let cfg := set_field "region" (Region def) cfg in
  let cfg := set_field "prefix" (Prefix def) cfg in
  let cfg := set_field "profile" (Profile def) cfg in
  let cfg := set_field "secret_name" (SecretName def) cfg in
  let cfg := set_field "token" (Token def) cfg in
  let cfg := set_field "deploy_key" (DeployKey def) cfg in
  cfg.

Definition make_target (name : string) (def : TargetDef) : Target.t :=
  Target.mk name (Type_ def) (Mapping def)
    (SecretsFilter.mk (Include def) (Exclude def))
    (Some (copy_config def)).

(** [c.GetTargets()] in an execution whose [range c.Targets] visits the
    entries in the order [kvs]. *)
Fixpoint GetTargets_loop (kvs : list (string * option TargetDef))
    (targets : list Target.t) : outcome (list Target.t) :=
  match kvs with
  | [] => Returns targets
  | (name, None) :: _ => Panics
  | (name, Some def) :: kvs' =>
      GetTargets_loop kvs' (targets ++ [make_target name def])
  end.

Definition GetTargets (kvs : list (string * option TargetDef)) (c : t)
  : outcome (list Target.t) :=
  GetTargets_loop kvs [].

(** [c.GetTarget(name)]: [Returns None] is [(nil, false)]. *)
Definition GetTarget (c : t) (name : string) : outcome (option Target.t) :=
  match gomap.index (Targets c) name with
  | None => Returns None
  | Some None => Panics
  | Some (Some def) => Returns (Some (make_target name def))
  end.

Fixpoint has_secret (secrets : list string) (name : string) : bool :=
  match secrets with
  | [] => false
  | s :: secrets' => if bool_decide (s = name) then true else has_secret secrets' name
  end.

Definition HasSecret (c : t) (name : string) : bool := has_secret (Secrets c) name.

Definition AddSecret (c : t) (name : string) : t :=
  if negb (HasSecret c name)
  then mk (Version c) (APIKey c) (APIURL c) (Secrets c ++ [name]) (Targets c)
  else c.

Definition AddTarget (c : t) (name : string) (def : option TargetDef) : t :=
  mk (Version c) (APIKey c) (APIURL c) (Secrets c)
    (Some (<[name := def]> (gomap.entries (Targets c)))).

End config.

(** ** The test doubles of [internal/sync/engine_test.go] *)

Module mock.

(** [sharedMockSecrets]: environment, then name, then value. *)
Definition Secrets : Type := gmap string (gmap string string).

(** [mockProvider.List]; the [range] over the environment's map is taken in
    the order of [map_to_list]. *)
Definition List (env : string) (w : Secrets)
  : (list SecretValue.t * option error) * Secrets :=
  let result :=
    match w !! env with
    | Some envSecrets =>
        (fun kv => SecretValue.mk kv.1 kv.2 env) <$> map_to_list envSecrets
    | None => []
    end in
  ((result, None), w).

(** [mockProvider.Set] of a provider whose [setErr] field is [setErr]. *)
Definition Set_ (setErr : option error) (name value env : string) (w : Secrets)
  : option error * Secrets :=
  match setErr with
  | Some err => (Some err, w)
  | None => (None, <[env := <[name := value]> (default ∅ (w !! env))]> w)
  end.

(** [mockProvider.Delete]. *)
Definition Delete (delErr : option error) (name env : string) (w : Secrets)
  : option error * Secrets :=
  match delErr with
  | Some err => (Some err, w)
  | None =>
      (None, match w !! env with
             | Some envSecrets => <[env := delete name envSecrets]> w
             | None => w
             end)
  end.

Definition newMockProvider (setErr delErr : option error)
  : provider.SyncTarget Secrets :=
  provider.mkSyncTarget List (Set_ setErr) (Delete delErr).

(** A provider whose [Set] fails for the names in [bad] and behaves like the
    mock for the others. *)
Definition newFlakyProvider (bad : list string) : provider.SyncTarget Secrets :=
  provider.mkSyncTarget List
    (fun name value env w =>
       if bool_decide (name ∈ bad)
       then (Some (errors.New "set failed"), w)
       else Set_ None name value env w)
    (Delete None).

(** A provider whose [List] fails. *)
Definition newDownProvider : provider.SyncTarget Secrets :=
  provider.mkSyncTarget
    (fun env w => (([], Some (errors.New "connection refused")), w))
    (Set_ None) (Delete None).

(** The registration of [init], and more entries used by the examples: a
    write-only platform over the same store, a platform that needs a
    token, one whose writes fail for [STRIPE_KEY] and one that cannot be
    listed. *)
Definition registry : gmap string (provider.ProviderInfo Secrets) :=
  <["mock"%string :=
      provider.mkProviderInfo "mock" "Mock Provider"
        (fun _ => Ok (newMockProvider None None)) "" false false false]>
  (<["mock-writeonly"%string :=
      provider.mkProviderInfo "mock-writeonly" "Mock write-only"
        (fun _ => Ok (newMockProvider None None)) "" true false false]>
  (<["mock-token"%string :=
      provider.mkProviderInfo "mock-token" "Mock with token"
        (fun _ => Ok (newMockProvider None None)) "MOCK_TOKEN" false false false]>
  (<["mock-flaky"%string :=
      provider.mkProviderInfo "mock-flaky" "Mock flaky"
        (fun _ => Ok (newFlakyProvider ["STRIPE_KEY"%string])) "" false false false]>
  (<["mock-down"%string :=
      provider.mkProviderInfo "mock-down" "Mock down"
        (fun _ => Ok newDownProvider) "" false false false]>
   ∅)))).

(** An environment of the process without variables. *)
Definition Getenv (name : string) : string := ""%string.
Definition ExpandEnv (s : string) : string := s.

Definition target (type : string) (include exclude : list string) : Target.t :=
  Target.mk "test-target" type
    (Some (<["development"%string := "test"%string]> ∅))
    (SecretsFilter.mk include exclude)
    (Some (<["token"%string := AnyString "test"]> ∅)).

Definition world (remote : Secrets) : @Engine.World Secrets unit :=
  Engine.mkWorld remote tt [].

Definition opts (dryRun : bool) : @Engine.SyncOptions unit :=
  Engine.mkSyncOptions dryRun "test" None.

(** The data of the examples: a schema of five names, local values for
    three of them (one empty), and a remote environment that holds two. *)
Definition names : list string :=
  ["API_KEY"; "STRIPE_KEY"; "EMPTY"; "ABSENT"; "STRIPE_KEY_TEST"]%string.

Definition src : source.Source :=
  source.tableSource "mock source"
    (<["API_KEY"%string := "v2"%string]>
    (<["STRIPE_KEY"%string := "sk"%string]>
    (<["EMPTY"%string := ""%string]> ∅))).

Definition remote0 : Secrets :=
  <["development"%string :=
      <["API_KEY"%string := "v1"%string]> (<["EMPTY"%string := "old"%string]> ∅)]> ∅.

End mock.

(** ** Vocabulary of the statements *)

(** [name] glob-matches [pattern]. *)
Definition glob_matches (Match : string -> string -> bool * option error)
    (pattern name : string) : Prop :=
  (Match pattern name).1 = true.

(** [Count p l]: the number of elements of [l] that satisfy [p]. *)
Definition Count {A} (p : A -> bool) (l : list A) : Z :=
  Z.of_nat (length (List.filter p l)).

Definition has_type (ty : DiffType.t) (d : SecretDiff.t) : bool :=
  bool_decide (SecretDiff.Type_ d = ty).

(** The entries classified Add, Change or Unknown. *)
Definition writable (d : SecretDiff.t) : bool :=
  match SecretDiff.Type_ d with
  | DiffAdd | DiffChange | DiffUnknown => true
  | _ => false
  end.

(** The call [set(name, newValue, remoteEnv)] for the entry [d], having
    returned [err]. *)
Definition set_call (remoteEnv : string) (d : SecretDiff.t) (err : option error)
  : Engine.Call :=
  Engine.CallSet (SecretDiff.Name d) (SecretDiff.NewValue d) remoteEnv err.

(** An entry with the error its set call returned. *)
Definition write_failed (p : SecretDiff.t * option error) : bool :=
  match p.2 with Some _ => true | None => false end.

Definition written_as (ty : DiffType.t) (p : SecretDiff.t * option error) : bool :=
  has_type ty p.1 && negb (write_failed p).

(** The error recorded for a failed write: the secret's name, then the
    store's error, wrapped. *)
Definition name_tagged (p : SecretDiff.t * option error) : option error :=
  match p.2 with
  | Some err => Some (wrapError (SecretDiff.Name p.1 +:+ ": " +:+ Error err) err)
  | None => None
  end.

(** The set calls for [ds] in order, starting from the remote state [s]:
    the errors they return and the state they leave. *)
Fixpoint run_sets {W} (writer : provider.Writer W) (remoteEnv : string)
    (ds : list SecretDiff.t) (s : W) : list (option error) * W :=
  match ds with
  | [] => ([], s)
  | d :: ds' =>
      let '(err, s') := provider.wSet writer (SecretDiff.Name d)
                          (SecretDiff.NewValue d) remoteEnv s in
      let '(errs, s'') := run_sets writer remoteEnv ds' s' in
      (err :: errs, s'')
  end.

(** What a store promises when it is described by [view]: the secrets it
    holds per remote environment.  A successful listing leaves them as they
    are and reports exactly the names held, with their values when the
    platform can read values back; a successful set stores the value under
    the name in that environment. *)
Record StoreContract {W} (prov : provider.SyncTarget W)
    (view : W -> string -> gmap string string) (readback : bool) : Prop := {
  list_view : forall env s l s',
      provider.List prov env s = ((l, None), s') -> view s' env = view s env;
  list_names : forall env s l s',
      provider.List prov env s = ((l, None), s') ->
      dom (Engine.build_remoteMap l) = dom (view s env);
  list_values : forall env s l s',
      readback = true ->
      provider.List prov env s = ((l, None), s') ->
      Engine.build_remoteMap l = view s env;
  set_view : forall name value env s s',
      provider.Set_ prov name value env s = (None, s') ->
      view s' env = <[name := value]> (view s env)
}.

(** The diff, or the result, of a run that returned one. *)
Definition diff_of (x : result TargetDiff.t) : TargetDiff.t :=
  match x with
  | Ok diff => diff
  | Err _ => TargetDiff.mk "" "" "" []
  end.

Definition result_of (x : result Engine.SyncResult) : Engine.SyncResult :=
  match x with
  | Ok r => r
  | Err _ => Engine.mkSyncResult "" "" 0 0 0 0 0 []
  end.

(** The secrets the mock store holds for an environment. *)
Definition mock_view (w : mock.Secrets) (env : string) : gmap string string :=
  default ∅ (w !! env).

(** The entry that [Preview] emits for [name]: none without a local value,
    else one carrying the classification. *)
Definition entry_of (sourceValues remoteMap : gmap string string)
    (writeOnly : bool) (remoteEnv : string) (name : string)
  : list SecretDiff.t :=
  match sourceValues !! name with
  | None => []
  | Some localValue =>
      if bool_decide (localValue = ""%string) then []
      else
        let remoteValue := (comma_ok (remoteMap !! name)).1 in
        let hasRemote := (comma_ok (remoteMap !! name)).2 in
        [SecretDiff.mk name
           (Engine.classify writeOnly hasRemote localValue remoteValue)
           remoteValue localValue remoteEnv false]
  end.

(** The engine over the mock store, with the glob matcher of the examples. *)
Abbreviation mockPreview :=
  (@Engine.Preview mock.Secrets unit glob.Match mock.registry mock.Getenv mock.ExpandEnv).
Abbreviation mockSync :=
  (@Engine.Sync mock.Secrets unit glob.Match mock.registry mock.Getenv mock.ExpandEnv).

(** * Properties *)

(** ** The filter *)

Section FilterProps.

Variable Match : string -> string -> bool * option error.

Lemma matchesAny_true (name : string) (patterns : list string) :
  filter.matchesAny Match name patterns = true <->
  exists p, p ∈ patterns /\ glob_matches Match p name.
Proof.
  unfold glob_matches. induction patterns as [|q qs IH]; simpl.
  - split; [discriminate|]. intros (p & Hp & _). by apply elem_of_nil in Hp.
  - destruct (Match q name).1 eqn:Hq.
    + split; [|done]. intros _. exists q. split; [left|done].
    + rewrite IH. split.
      * intros (p & Hp & Hm). exists p. split; [by right|done].
      * intros (p & Hp & Hm). apply elem_of_cons in Hp as [->|Hp].
        -- congruence.
        -- by exists p.
Qed.

Lemma matchesAny_false (name : string) (patterns : list string) :
  filter.matchesAny Match name patterns = false <->
  ~ exists p, p ∈ patterns /\ glob_matches Match p name.
Proof.
  rewrite <- matchesAny_true.
  destruct (filter.matchesAny _ _ _); split; try done; intros H; by destruct H.
Qed.

Lemma FilterSecretNames_filter (names : list string) (target : Target.t) :
  filter.FilterSecretNames Match names target =
  List.filter (fun name => filter.ShouldSyncSecret Match name target) names.
Proof.
  unfold filter.FilterSecretNames.
  enough (forall acc,
    foldl (fun filtered name =>
             if filter.ShouldSyncSecret Match name target
             then filtered ++ [name] else filtered) acc names =
    acc ++ List.filter (fun name => filter.ShouldSyncSecret Match name target) names)
    as H by apply (H []).
  induction names as [|n ns IH]; intros acc; simpl.
  - by rewrite app_nil_r.
  - rewrite IH. destruct (filter.ShouldSyncSecret Match n target); [|done].
    by rewrite <- app_assoc.
Qed.

Lemma ShouldSyncSecret_true (secretName : string) (target : Target.t) :
  filter.ShouldSyncSecret Match secretName target = true <->
  (SecretsFilter.Include (Target.Secrets target) = []
   \/ filter.matchesAny Match secretName
        (SecretsFilter.Include (Target.Secrets target)) = true)
  /\ filter.matchesAny Match secretName
       (SecretsFilter.Exclude (Target.Secrets target)) = false.
Proof.
  unfold filter.ShouldSyncSecret.
  destruct (SecretsFilter.Include (Target.Secrets target)) as [|i incl].
  - simpl. destruct (filter.matchesAny Match secretName _); split; try done.
    + by intros [_ ?].
    + intros _. split; [by left|done].
  - change (0 <? length (i :: incl))%nat with true.
    destruct (filter.matchesAny Match secretName (i :: incl)); simpl.
    + destruct (filter.matchesAny Match secretName _); split; try done.
      * by intros [_ ?].
      * intros _. split; [by right|done].
    + split; [done|]. by intros [[?|?] _].
Qed.

(** C6. [ShouldSyncSecret] accepts a name exactly when the include list is
    empty or one of its patterns glob-matches the name, and no exclude
    pattern glob-matches it.  With both lists empty every name is accepted;
    a name matched by an exclude pattern is rejected whatever the include
    list says. *)
Theorem ShouldSyncSecret_filter_composition
    (secretName : string) (target : Target.t) :
  let include := SecretsFilter.Include (Target.Secrets target) in
  let exclude := SecretsFilter.Exclude (Target.Secrets target) in
  (filter.ShouldSyncSecret Match secretName target = true <->
     (include = [] \/ exists p, p ∈ include /\ glob_matches Match p secretName)
     /\ ~ (exists p, p ∈ exclude /\ glob_matches Match p secretName))
  /\ (include = [] -> exclude = [] ->
      filter.ShouldSyncSecret Match secretName target = true)
  /\ ((exists p, p ∈ exclude /\ glob_matches Match p secretName) ->
      filter.ShouldSyncSecret Match secretName target = false).
Proof.
  intros include exclude.
  assert (filter.ShouldSyncSecret Match secretName target = true <->
     (include = [] \/ exists p, p ∈ include /\ glob_matches Match p secretName)
     /\ ~ (exists p, p ∈ exclude /\ glob_matches Match p secretName)) as Hiff.
  { rewrite ShouldSyncSecret_true. fold include exclude.
    by rewrite matchesAny_true, matchesAny_false. }
  split; [exact Hiff|]. split.
  - intros Hi He. apply Hiff. split; [by left|].
    rewrite He. intros (p & Hp & _). by apply elem_of_nil in Hp.
  - intros Hex. apply not_true_is_false. intros E.
    apply Hiff in E as [_ Hn]. by apply Hn.
Qed.

End FilterProps.

(** The composition at the spec's scenario: include [STRIPE_*], exclude
    [*_TEST]. *)
Lemma ShouldSyncSecret_filter_composition_witness :
  filter.ShouldSyncSecret glob.Match "STRIPE_KEY_TEST"
    (mock.target "mock" ["STRIPE_*"]%string ["*_TEST"]%string) = false.
Proof.
  apply (ShouldSyncSecret_filter_composition glob.Match "STRIPE_KEY_TEST"
           (mock.target "mock" ["STRIPE_*"]%string ["*_TEST"]%string)).
  exists "*_TEST"%string. split; [apply list_elem_of_In; simpl; tauto | reflexivity].
Defined.

Example filter_scenario_5 :
  filter.FilterSecretNames glob.Match ["STRIPE_KEY"; "STRIPE_KEY_TEST"; "OTHER"]%string
    (mock.target "mock" ["STRIPE_*"]%string ["*_TEST"]%string)
  = ["STRIPE_KEY"%string].
Proof. reflexivity. Qed.

Example matchesAny_tests :
  filter.matchesAny glob.Match "API_KEY" ["API_KEY"]%string = true
  /\ filter.matchesAny glob.Match "STRIPE_KEY" ["STRIPE_*"]%string = true
  /\ filter.matchesAny glob.Match "MY_SECRET" ["*_SECRET"]%string = true
  /\ filter.matchesAny glob.Match "DATABASE_URL" ["STRIPE_*"; "API_*"]%string = false
  /\ filter.matchesAny glob.Match "API_KEY" [] = false
  /\ filter.matchesAny glob.Match "KEY1" ["KEY?"]%string = true.
Proof. repeat split. Qed.

(** ** The environment mapper *)

Lemma MapToRemote_loop_filter (kvs : list (string * string)) (localEnv : string) :
  Target.MapToRemote_loop kvs localEnv =
  (List.filter (fun kv => bool_decide (kv.2 = localEnv)) kvs).*1.
Proof.
  unfold Target.MapToRemote_loop.
  enough (forall acc,
    foldl (fun remotes (kv : string * string) =>
             if bool_decide (kv.2 = localEnv) then remotes ++ [kv.1] else remotes)
          acc kvs =
    acc ++ (List.filter (fun kv => bool_decide (kv.2 = localEnv)) kvs).*1)
    as H by apply (H []).
  induction kvs as [|kv kvs IH]; intros acc; simpl.
  - by rewrite app_nil_r.
  - rewrite IH. case_bool_decide; [|done]. simpl. by rewrite <- app_assoc.
Qed.

Lemma elem_of_MapToRemote_loop (kvs : list (string * string))
    (localEnv remote : string) :
  remote ∈ Target.MapToRemote_loop kvs localEnv <-> (remote, localEnv) ∈ kvs.
Proof.
  rewrite MapToRemote_loop_filter, list_elem_of_fmap. split.
  - intros ([r l] & -> & Hin). apply list_elem_of_In, List.filter_In in Hin.
    destruct Hin as [Hin Hb]. apply bool_decide_eq_true in Hb. simpl in *.
    subst. by apply list_elem_of_In.
  - intros Hin. exists (remote, localEnv). split; [done|].
    apply list_elem_of_In, List.filter_In. split; [by apply list_elem_of_In|].
    by apply bool_decide_eq_true.
Qed.

Lemma NoDup_fmap_fst_filter {A B} (p : A * B -> bool) (l : list (A * B)) :
  NoDup l.*1 -> NoDup (List.filter p l).*1.
Proof.
  induction l as [|x l IH]; simpl; [done|].
  intros Hnd. apply NoDup_cons in Hnd as [Hx Hnd].
  destruct (p x); simpl; [|by apply IH].
  apply NoDup_cons. split; [|by apply IH].
  intros Hin. apply Hx. apply list_elem_of_fmap in Hin as (y & -> & Hy).
  apply list_elem_of_fmap. exists y. split; [done|].
  apply list_elem_of_In, List.filter_In in Hy as [Hy _]. by apply list_elem_of_In.
Qed.

(** C8. In every execution of [MapToRemote] (whatever the order [kvs] in
    which the [range] visits the table) the result holds exactly the keys
    of the mapping table whose value is the local environment, each once;
    [MapToLocal] returns the entry of the remote environment if there is
    one, else the entry of ["default"] if there is one, else the empty
    string; on a nil or empty table the first returns no name and the
    second the empty string.  Both are functions of the target and the
    argument alone. *)
Theorem environment_mapper_contract (t : Target.t) (kvs : list (string * string)) :
  gomap.range_order (Target.Mapping t) kvs ->
  (forall localEnv remote,
      remote ∈ Target.MapToRemote kvs t localEnv <->
      gomap.index (Target.Mapping t) remote = Some localEnv)
  /\ (forall localEnv, NoDup (Target.MapToRemote kvs t localEnv))
  /\ (forall remoteEnv,
      Target.MapToLocal t remoteEnv =
      match gomap.index (Target.Mapping t) remoteEnv with
      | Some local => local
      | None =>
          match gomap.index (Target.Mapping t) "default" with
          | Some local => local
          | None => ""%string
          end
      end)
  /\ (Target.Mapping t = None \/ Target.Mapping t = Some ∅ ->
      (forall localEnv, Target.MapToRemote kvs t localEnv = [])
      /\ (forall remoteEnv, Target.MapToLocal t remoteEnv = ""%string)).
Proof.
  unfold gomap.range_order, Target.MapToRemote. intros Hperm.
  split; [|split; [|split]].
  - intros localEnv remote. rewrite elem_of_MapToRemote_loop, Hperm.
    apply elem_of_map_to_list.
  - intros localEnv. rewrite MapToRemote_loop_filter.
    apply NoDup_fmap_fst_filter. rewrite Hperm. apply NoDup_fst_map_to_list.
  - intros remoteEnv. unfold Target.MapToLocal.
    destruct (gomap.index (Target.Mapping t) remoteEnv); simpl; [done|].
    by destruct (gomap.index (Target.Mapping t) "default").
  - intros Hempty.
    assert (gomap.entries (Target.Mapping t) = ∅) as He
      by (destruct Hempty as [-> | ->]; done).
    split.
    + intros localEnv. rewrite He, map_to_list_empty in Hperm.
      apply Permutation_nil_r in Hperm. by subst kvs.
    + intros remoteEnv. unfold Target.MapToLocal, gomap.index.
      by rewrite He, !lookup_empty.
Qed.

(** The contract on a target whose table sends two remote environments to
    [test]: both are returned. *)
Lemma environment_mapper_contract_witness :
  let t := Target.mk "vercel" "mock"
             (Some (<["development"%string := "test"%string]>
                   (<["preview"%string := "test"%string]>
                   (<["production"%string := "live"%string]> ∅))))
             (SecretsFilter.mk [] []) None in
  let kvs := map_to_list (gomap.entries (Target.Mapping t)) in
  ("preview"%string ∈ Target.MapToRemote kvs t "test" <->
      gomap.index (Target.Mapping t) "preview" = Some "test"%string)
  /\ NoDup (Target.MapToRemote kvs t "test")
  /\ Target.MapToLocal t "staging" = ""%string.
Proof.
  intros t kvs.
  assert (gomap.range_order (Target.Mapping t) kvs) as Hord
    by (unfold gomap.range_order; reflexivity).
  destruct (environment_mapper_contract t kvs Hord) as (H1 & H2 & H3 & _).
  split; [apply H1|]. split; [apply H2|]. rewrite H3. reflexivity.
Defined.

Example MapToRemote_fan_out :
  Target.MapToRemote
    (map_to_list (<["development"%string := "test"%string]>
                 (<["preview"%string := "test"%string]>
                 (<["production"%string := "live"%string]> (∅ : gmap string string)))))
    (Target.mk "vercel" "mock" None (SecretsFilter.mk [] []) None) "test"
  ≡ₚ ["preview"; "development"]%string.
Proof. vm_compute. apply perm_swap || reflexivity. Qed.

Example MapToLocal_tests :
  let t := Target.mk "vercel" "mock"
             (Some (<["development"%string := "test"%string]>
                   (<["default"%string := "live"%string]> ∅)))
             (SecretsFilter.mk [] []) None in
  Target.MapToLocal t "development" = "test"%string
  /\ Target.MapToLocal t "unknown" = "live"%string.
Proof. split; reflexivity. Qed.

(** ** Strings and counting *)

Lemma string_append_assoc (s1 s2 s3 : string) :
  (s1 +:+ s2) +:+ s3 = s1 +:+ (s2 +:+ s3).
Proof.
  induction s1 as [|c s1 IH]; [reflexivity|].
  change (String c ((s1 +:+ s2) +:+ s3) = String c (s1 +:+ (s2 +:+ s3))).
  by rewrite IH.
Qed.

Lemma Count_nil {A} (p : A -> bool) : Count p [] = 0%Z.
Proof. reflexivity. Qed.

Lemma Count_cons {A} (p : A -> bool) (x : A) (l : list A) :
  Count p (x :: l) = ((if p x then 1 else 0) + Count p l)%Z.
Proof. unfold Count. simpl. destruct (p x); simpl; lia. Qed.

Lemma Count_nonneg {A} (p : A -> bool) (l : list A) : (0 <= Count p l)%Z.
Proof. unfold Count. lia. Qed.

Lemma Count_zero_Forall {A} (p : A -> bool) (l : list A) :
  Count p l = 0%Z -> Forall (fun x => p x = false) l.
Proof.
  induction l as [|x l IH]; [constructor|].
  rewrite Count_cons. pose proof (Count_nonneg p l).
  destruct (p x) eqn:Hp; [lia|]. intros H0. constructor; [done|]. apply IH. lia.
Qed.

(** ** The engine *)

Section EngineProps.

Context {W U : Type}.
Variable Match : string -> string -> bool * option error.
Variable registry : gmap string (provider.ProviderInfo W).
Variable Getenv : string -> string.
Variable ExpandEnv : string -> string.

Abbreviation createProvider := (Engine.createProvider registry Getenv ExpandEnv).
Abbreviation Preview := (@Engine.Preview W U Match registry Getenv ExpandEnv).
Abbreviation Sync := (@Engine.Sync W U Match registry Getenv ExpandEnv).
Abbreviation FilterSecretNames := (filter.FilterSecretNames Match).
Abbreviation World := (@Engine.World W U).

(** *** Preview *)

Lemma preview_step_entry (sv rm : gmap string string) (wo : bool)
    (env : string) (diff : TargetDiff.t) (name : string) :
  Engine.preview_step sv rm wo env diff name =
  TargetDiff.mk (TargetDiff.TargetName diff) (TargetDiff.TargetType diff)
    (TargetDiff.Project diff)
    (TargetDiff.Diffs diff ++ entry_of sv rm wo env name).
Proof.
  unfold Engine.preview_step, entry_of. destruct diff as [tn tt pr ds]. simpl.
  destruct (sv !! name) as [v|]; simpl; destruct (rm !! name) as [rv|]; simpl;
    try case_bool_decide; simpl; by rewrite ?app_nil_r.
Qed.

Lemma preview_fold (sv rm : gmap string string) (wo : bool) (env : string)
    (names : list string) (diff : TargetDiff.t) :
  foldl (Engine.preview_step sv rm wo env) diff names =
  TargetDiff.mk (TargetDiff.TargetName diff) (TargetDiff.TargetType diff)
    (TargetDiff.Project diff)
    (TargetDiff.Diffs diff ++ (names ≫= entry_of sv rm wo env)).
Proof.
  revert diff. induction names as [|n ns IH]; intros diff; simpl.
  - destruct diff. simpl. by rewrite app_nil_r.
  - rewrite IH, preview_step_entry. simpl. by rewrite <- app_assoc.
Qed.

(** What a run of [Preview] returns and the world it leaves, case by case. *)
Lemma Preview_unfold (names : list string) (src : source.Source)
    (target : Target.t) (env : string) (w : World) :
  Preview names src target env w =
  match createProvider target with
  | Err err => (Err err, w)
  | Ok prov =>
      let '((l, e), s) := provider.List prov env (Engine.remote w) in
      let w' := Engine.mkWorld s (Engine.ui w)
                  (Engine.calls w ++ [Engine.CallList env e]) in
      match e with
      | Some err =>
          (Err (wrapError ("failed to list secrets from " +:+ Target.Name target
                           +:+ ": " +:+ Error err) err), w')
      | None =>
          (Ok (TargetDiff.mk (Target.Name target) (Target.Type_ target)
                 (Target.GetProject target)
                 (FilterSecretNames names target ≫=
                    entry_of (source.GetAll src (FilterSecretNames names target))
                      (Engine.build_remoteMap l)
                      (provider.IsWriteOnly registry (Target.Type_ target)) env)),
           w')
      end
  end.
Proof.
  unfold Engine.Preview. destruct (createProvider target) as [prov|err]; [|done].
  unfold Engine.bind, Engine.call_List, Engine.ret.
  destruct (provider.List prov env (Engine.remote w)) as [[l e] s]. simpl.
  destruct e as [err|]; simpl.
  - unfold Errorf_w. by rewrite !string_append_assoc.
  - rewrite preview_fold. simpl.
    unfold provider.IsWriteOnly, provider.info_WriteOnly, provider.Get.
    by destruct (registry !! Target.Type_ target).
Qed.

Lemma elem_of_entry_of (sv rm : gmap string string) (wo : bool) (env name : string)
    (d : SecretDiff.t) :
  d ∈ entry_of sv rm wo env name <->
  exists v, sv !! name = Some v /\ v <> ""%string /\
    d = SecretDiff.mk name
          (Engine.classify wo (comma_ok (rm !! name)).2 v (comma_ok (rm !! name)).1)
          (comma_ok (rm !! name)).1 v env false.
Proof.
  unfold entry_of. destruct (sv !! name) as [v|].
  - case_bool_decide as Hv.
    + split; [by intros ?%elem_of_nil|]. intros (v' & [= <-] & Hne & _). done.
    + rewrite list_elem_of_singleton. split.
      * intros ->. by exists v.
      * by intros (v' & [= <-] & _ & ->).
  - split; [by intros ?%elem_of_nil|]. by intros (v' & [=] & _).
Qed.

(** The entries of a diff name by name. *)
Lemma elem_of_entries (sv rm : gmap string string) (wo : bool) (env : string)
    (names : list string) (d : SecretDiff.t) :
  d ∈ names ≫= entry_of sv rm wo env <->
  exists name v, name ∈ names /\ sv !! name = Some v /\ v <> ""%string /\
    d = SecretDiff.mk name
          (Engine.classify wo (comma_ok (rm !! name)).2 v (comma_ok (rm !! name)).1)
          (comma_ok (rm !! name)).1 v env false.
Proof.
  rewrite list_elem_of_bind. split.
  - intros (name & Hd & Hn). apply elem_of_entry_of in Hd as (v & ? & ? & ?).
    by exists name, v.
  - intros (name & v & Hn & ? & ? & ?). exists name. split; [|done].
    apply elem_of_entry_of. by exists v.
Qed.

Lemma classify_not_remove (wo hr : bool) (lv rv : string) :
  Engine.classify wo hr lv rv <> DiffRemove.
Proof. unfold Engine.classify. by repeat case_match. Qed.

Lemma Preview_Ok_inv (names : list string) (src : source.Source)
    (target : Target.t) (env : string) (w w' : World) (diff : TargetDiff.t) :
  Preview names src target env w = (Ok diff, w') ->
  exists prov l s,
    createProvider target = Ok prov
    /\ provider.List prov env (Engine.remote w) = ((l, None), s)
    /\ w' = Engine.mkWorld s (Engine.ui w)
              (Engine.calls w ++ [Engine.CallList env None])
    /\ diff = TargetDiff.mk (Target.Name target) (Target.Type_ target)
                (Target.GetProject target)
                (FilterSecretNames names target ≫=
                   entry_of (source.GetAll src (FilterSecretNames names target))
                     (Engine.build_remoteMap l)
                     (provider.IsWriteOnly registry (Target.Type_ target)) env).
Proof.
  rewrite Preview_unfold. destruct (createProvider target) as [prov|err]; [|done].
  destruct (provider.List prov env (Engine.remote w)) as [[l e] s] eqn:Hl.
  destruct e as [err|]; [done|]. intros [= <- <-]. by exists prov, l, s.
Qed.

(** The remote map has an entry for a name exactly when the listing has
    one. *)
Lemma build_remoteMap_is_Some (l : list SecretValue.t) (name : string) :
  is_Some (Engine.build_remoteMap l !! name) <->
  exists sv, sv ∈ l /\ SecretValue.Name sv = name.
Proof.
  unfold Engine.build_remoteMap.
  enough (forall m : gmap string string,
    is_Some (foldl (fun m s => <[SecretValue.Name s := SecretValue.Value s]> m) m l
             !! name) <->
    is_Some (m !! name) \/ exists sv, sv ∈ l /\ SecretValue.Name sv = name) as H.
  { rewrite H, lookup_empty. split; [intros [[? [=]]|]; done | by right]. }
  induction l as [|x l IH]; intros m; simpl.
  - split; [by left|]. intros [|(sv & Hin & _)]; [done|]. by apply elem_of_nil in Hin.
  - rewrite IH. rewrite lookup_insert. case_decide as Hx; subst.
    + split; [|by eauto]. intros _. right. exists x. split; [left|done].
    + split.
      * intros [?|(sv & Hin & Hn)]; [by left|]. right. exists sv.
        split; [by right|done].
      * intros [?|(sv & Hin & Hn)]; [by left|].
        apply elem_of_cons in Hin as [->|Hin]; [done|]. right. by exists sv.
Qed.

(** C1. A name whose local value is absent or empty has no entry in the
    diff that [Preview] returns, whatever the store lists for it. *)
Theorem Preview_no_entry_without_local_value
    (names : list string) (src : source.Source) (target : Target.t)
    (env : string) (w w' : World) (diff : TargetDiff.t) :
  Preview names src target env w = (Ok diff, w') ->
  forall name,
    name ∈ FilterSecretNames names target ->
    source.GetAll src (FilterSecretNames names target) !! name = None
    \/ source.GetAll src (FilterSecretNames names target) !! name = Some ""%string ->
    forall d, d ∈ TargetDiff.Diffs diff -> SecretDiff.Name d <> name.
Proof.
  intros Hp name _ Hlocal d Hd Hname.
  apply Preview_Ok_inv in Hp as (prov & l & s & _ & _ & _ & ->). simpl in Hd.
  apply elem_of_entries in Hd as (name' & v & _ & Hv & Hne & ->).
  simpl in Hname. subst name'. destruct Hlocal as [Hl|Hl]; congruence.
Qed.

(** C2. When the listing succeeds, [Preview] returns a diff in which every
    filtered name with a non-empty local value has an entry, and each such
    entry carries the local value and is classified Unknown if the platform
    is write-only and the listing has the name; else Add if the listing
    does not have it; else Change if the listed value differs from the
    local one; else Unchanged. *)
Theorem Preview_classification
    (names : list string) (src : source.Source) (target : Target.t)
    (env : string) (w : World) (prov : provider.SyncTarget W)
    (remoteSecrets : list SecretValue.t) (s : W) :
  createProvider target = Ok prov ->
  provider.List prov env (Engine.remote w) = ((remoteSecrets, None), s) ->
  exists diff w',
    Preview names src target env w = (Ok diff, w')
    /\ forall name localValue,
      name ∈ FilterSecretNames names target ->
      source.GetAll src (FilterSecretNames names target) !! name = Some localValue ->
      localValue <> ""%string ->
      let writeOnly := provider.IsWriteOnly registry (Target.Type_ target) in
      let remote := Engine.build_remoteMap remoteSecrets !! name in
      (exists d, d ∈ TargetDiff.Diffs diff /\ SecretDiff.Name d = name)
      /\ forall d, d ∈ TargetDiff.Diffs diff -> SecretDiff.Name d = name ->
           SecretDiff.NewValue d = localValue
           /\ (writeOnly = true -> is_Some remote ->
               SecretDiff.Type_ d = DiffUnknown)
           /\ (remote = None -> SecretDiff.Type_ d = DiffAdd)
           /\ (writeOnly = false -> forall remoteValue,
               remote = Some remoteValue -> remoteValue <> localValue ->
               SecretDiff.Type_ d = DiffChange)
           /\ (writeOnly = false -> remote = Some localValue ->
               SecretDiff.Type_ d = DiffUnchanged).
Proof.
  intros Hc Hl. eexists _, _. split.
  { rewrite Preview_unfold, Hc, Hl. reflexivity. }
  simpl. intros name v Hin Hv Hne. split.
  - eexists. split.
    + apply elem_of_entries. exists name, v.
      split; [done|]. split; [done|]. split; [done|]. reflexivity.
    + reflexivity.
  - intros d Hd Hname. apply elem_of_entries in Hd as (n' & v' & _ & Hv' & _ & ->).
    simpl in Hname. subst n'. rewrite Hv in Hv'. injection Hv' as <-. simpl.
    unfold Engine.classify.
    destruct (Engine.build_remoteMap remoteSecrets !! name) as [rv|] eqn:Hr; simpl;
      destruct (provider.IsWriteOnly registry (Target.Type_ target)); simpl;
      repeat split; try done; try (by intros _ [? [=]]).
    + intros _ rv' [= <-] Hneq. case_bool_decide; [congruence|done].
    + intros _ [= ->]. by case_bool_decide.
Qed.

(** C7. If the store handle cannot be constructed, [Preview] returns that
    error, no diff, and makes no call.  If the handle's list call fails,
    [Preview] returns no diff but the list error wrapped in a message that
    names the target. *)
Theorem Preview_error_atomic
    (names : list string) (src : source.Source) (target : Target.t)
    (env : string) (w : World) :
  (forall err, createProvider target = Err err ->
     Preview names src target env w = (Err err, w))
  /\ (forall prov l err s,
        createProvider target = Ok prov ->
        provider.List prov env (Engine.remote w) = ((l, Some err), s) ->
        exists w',
          Preview names src target env w =
            (Err (wrapError ("failed to list secrets from " +:+ Target.Name target
                             +:+ ": " +:+ Error err) err), w')
          /\ Engine.remote w' = s).
Proof.
  split.
  - intros err Hc. by rewrite Preview_unfold, Hc.
  - intros prov l err s Hc Hl. eexists. rewrite Preview_unfold, Hc, Hl.
    split; reflexivity.
Qed.

(** *** Sync *)

(** One iteration of the apply loop, by the classification of its entry. *)
Lemma sync_step_spec (target : Target.t) (env : string)
    (opts : @Engine.SyncOptions U) (writer : provider.Writer W)
    (r : Engine.SyncResult) (d : SecretDiff.t) (w : World) :
  let out := Engine.sync_step target env opts writer r d w in
  if has_type DiffUnchanged d then
    out.1 = Engine.incUnchanged r /\ out.2 = w
  else if writable d then
    let res := provider.wSet writer (SecretDiff.Name d) (SecretDiff.NewValue d)
                 env (Engine.remote w) in
    Engine.remote out.2 = res.2
    /\ Engine.calls out.2 = Engine.calls w ++ [set_call env d res.1]
    /\ out.1 = match res.1 with
               | Some err =>
                   Engine.appendError (Engine.incFailed r)
                     (wrapError (SecretDiff.Name d +:+ ": " +:+ Error err) err)
               | None =>
                   match SecretDiff.Type_ d with
                   | DiffAdd => Engine.incAdded r
                   | DiffUnknown => Engine.incUnknown r
                   | _ => Engine.incChanged r
                   end
               end
  else
    Engine.remote out.2 = Engine.remote w
    /\ Engine.calls out.2 = Engine.calls w
    /\ out.1 = Engine.incChanged r.
Proof.
  unfold Engine.sync_step, has_type, writable, set_call.
  destruct (SecretDiff.Type_ d) eqn:Hty; simpl;
    unfold Engine.bind, Engine.progress, Engine.call_Set, Engine.ret, Errorf_w;
    destruct (Engine.Progress opts); simpl;
    try destruct (provider.wSet writer _ _ _ _) as [[err|] s]; simpl;
    rewrite ?string_append_assoc; auto.
Qed.

Lemma foldM_cons {A B} (f : A -> B -> @Engine.M W U A) (a : A) (b : B)
    (l : list B) (w : World) :
  Engine.foldM f a (b :: l) w = Engine.foldM f (f a b w).1 l (f a b w).2.
Proof. simpl. unfold Engine.bind. by destruct (f a b w). Qed.

Lemma run_sets_cons (writer : provider.Writer W) (env : string)
    (d : SecretDiff.t) (ds : list SecretDiff.t) (s : W) :
  let res := provider.wSet writer (SecretDiff.Name d) (SecretDiff.NewValue d) env s in
  run_sets writer env (d :: ds) s =
  (res.1 :: (run_sets writer env ds res.2).1, (run_sets writer env ds res.2).2).
Proof.
  simpl. destruct (provider.wSet writer _ _ _ _) as [e s']. simpl.
  by destruct (run_sets writer env ds s').
Qed.

Lemma run_sets_length (writer : provider.Writer W) (env : string)
    (ds : list SecretDiff.t) (s : W) :
  length (run_sets writer env ds s).1 = length ds.
Proof.
  revert s. induction ds as [|d ds IH]; intros s; [done|].
  rewrite run_sets_cons. simpl. by rewrite IH.
Qed.

(** The apply loop: which calls it makes, the state it leaves and the
    result it accumulates, in terms of the errors the set calls return. *)
Lemma sync_loop_spec (target : Target.t) (env : string)
    (opts : @Engine.SyncOptions U) (writer : provider.Writer W)
    (ds : list SecretDiff.t) :
  forall (r : Engine.SyncResult) (w : World),
  let out := Engine.foldM (Engine.sync_step target env opts writer) r ds w in
  let wr := List.filter writable ds in
  let errs := (run_sets writer env wr (Engine.remote w)).1 in
  Engine.remote out.2 = (run_sets writer env wr (Engine.remote w)).2
  /\ Engine.calls out.2 = Engine.calls w ++ zip_with (set_call env) wr errs
  /\ Engine.TargetName out.1 = Engine.TargetName r
  /\ Engine.Environment out.1 = Engine.Environment r
  /\ Engine.Added out.1 = (Engine.Added r + Count (written_as DiffAdd) (zip wr errs))%Z
  /\ Engine.Changed out.1 =
       (Engine.Changed r + Count (written_as DiffChange) (zip wr errs)
        + Count (has_type DiffRemove) ds)%Z
  /\ Engine.Unchanged out.1 = (Engine.Unchanged r + Count (has_type DiffUnchanged) ds)%Z
  /\ Engine.Unknown out.1 =
       (Engine.Unknown r + Count (written_as DiffUnknown) (zip wr errs))%Z
  /\ Engine.Failed out.1 = (Engine.Failed r + Count write_failed (zip wr errs))%Z
  /\ Engine.Errors out.1 = Engine.Errors r ++ omap name_tagged (zip wr errs).
Proof.
  induction ds as [|d ds IH]; intros r w.
  - simpl. rewrite !Count_nil, !app_nil_r. repeat split; lia.
  - cbv zeta. rewrite foldM_cons.
    pose proof (sync_step_spec target env opts writer r d w) as Hstep.
    cbv zeta in Hstep.
    destruct (Engine.sync_step target env opts writer r d w) as [r1 w1].
    specialize (IH r1 w1). cbv zeta in IH. simpl fst in *. simpl snd in *.
    destruct IH as (I1 & I2 & I3 & I4 & I5 & I6 & I7 & I8 & I9 & I10).
    rewrite I1, I2, I3, I4, I5, I6, I7, I8, I9, I10. clear I1 I2 I3 I4 I5 I6 I7 I8 I9 I10.
    rewrite !(Count_cons _ d).
    unfold has_type, writable in *. simpl List.filter. unfold writable.
    destruct (SecretDiff.Type_ d) eqn:Hty; simpl in Hstep;
      try (destruct Hstep as (-> & ->));
      try (destruct Hstep as (H1 & H2 & ->));
      simpl bool_decide; cbv iota;
      try rewrite run_sets_cons; cbv zeta; simpl fst; simpl snd;
      try rewrite H1; try rewrite H2;
      try (destruct (provider.wSet writer _ _ _ _) as [[err|] s1]; simpl fst; simpl snd);
      simpl zip_with; rewrite ?Count_cons; simpl omap;
      unfold written_as, write_failed, has_type, name_tagged; simpl;
      rewrite ?Hty; simpl; rewrite <- ?app_assoc; simpl;
      repeat split; try reflexivity; try lia.
Qed.

Lemma sync_loop_total (target : Target.t) (env : string)
    (opts : @Engine.SyncOptions U) (writer : provider.Writer W)
    (ds : list SecretDiff.t) :
  forall (r : Engine.SyncResult) (w : World),
  let out := Engine.foldM (Engine.sync_step target env opts writer) r ds w in
  (Engine.Added out.1 + Engine.Changed out.1 + Engine.Unchanged out.1
   + Engine.Unknown out.1 + Engine.Failed out.1
   = Engine.Added r + Engine.Changed r + Engine.Unchanged r
     + Engine.Unknown r + Engine.Failed r + Z.of_nat (length ds))%Z.
Proof.
  induction ds as [|d ds IH]; intros r w.
  - simpl. lia.
  - cbv zeta. rewrite foldM_cons.
    pose proof (sync_step_spec target env opts writer r d w) as Hstep.
    cbv zeta in Hstep.
    destruct (Engine.sync_step target env opts writer r d w) as [r1 w1].
    specialize (IH r1 w1). cbv zeta in IH. simpl fst in *. simpl snd in *.
    rewrite IH. clear IH. unfold has_type, writable in Hstep.
    destruct (SecretDiff.Type_ d) eqn:Hty; simpl in Hstep;
      try (destruct Hstep as (-> & _));
      try (destruct Hstep as (_ & _ & ->));
      try (destruct (provider.wSet writer _ _ _ _) as [[err|] s1]; simpl fst);
      simpl; lia.
Qed.

Lemma tally_fold (ds : list SecretDiff.t) :
  forall r : Engine.SyncResult,
  let out := foldl Engine.tally_step r ds in
  Engine.TargetName out = Engine.TargetName r
  /\ Engine.Environment out = Engine.Environment r
  /\ Engine.Added out = (Engine.Added r + Count (has_type DiffAdd) ds)%Z
  /\ Engine.Changed out = (Engine.Changed r + Count (has_type DiffChange) ds)%Z
  /\ Engine.Unchanged out = (Engine.Unchanged r + Count (has_type DiffUnchanged) ds)%Z
  /\ Engine.Unknown out = (Engine.Unknown r + Count (has_type DiffUnknown) ds)%Z
  /\ Engine.Failed out = Engine.Failed r
  /\ Engine.Errors out = Engine.Errors r.
Proof.
  induction ds as [|d ds IH]; intros r.
  - simpl. rewrite !Count_nil. repeat split; lia.
  - cbv zeta. simpl foldl. specialize (IH (Engine.tally_step r d)). cbv zeta in IH.
    destruct IH as (I1 & I2 & I3 & I4 & I5 & I6 & I7 & I8).
    rewrite I1, I2, I3, I4, I5, I6, I7, I8, !(Count_cons _ d).
    unfold Engine.tally_step, has_type.
    destruct (SecretDiff.Type_ d); simpl; repeat split; lia.
Qed.

(** [Sync] after [Preview], case by case. *)
Lemma Sync_Err (names : list string) (src : source.Source) (target : Target.t)
    (env : string) (opts : @Engine.SyncOptions U) (w wp : World) (err : error) :
  Preview names src target env w = (Err err, wp) ->
  Sync names src target env opts w = (Err err, wp).
Proof. intros Hp. unfold Engine.Sync, Engine.bind. by rewrite Hp. Qed.

Lemma Sync_dry (names : list string) (src : source.Source) (target : Target.t)
    (env : string) (opts : @Engine.SyncOptions U) (w wp : World)
    (diff : TargetDiff.t) :
  Engine.DryRun opts = true ->
  Preview names src target env w = (Ok diff, wp) ->
  Sync names src target env opts w =
  (Ok (foldl Engine.tally_step
         (Engine.mkSyncResult (Target.Name target) env 0 0 0 0 0 [])
         (TargetDiff.Diffs diff)), wp).
Proof. intros Hd Hp. unfold Engine.Sync, Engine.bind. by rewrite Hp, Hd. Qed.

Lemma Sync_apply (names : list string) (src : source.Source) (target : Target.t)
    (env : string) (opts : @Engine.SyncOptions U) (w wp : World)
    (diff : TargetDiff.t) :
  Engine.DryRun opts = false ->
  Preview names src target env w = (Ok diff, wp) ->
  exists prov,
    createProvider target = Ok prov
    /\ Sync names src target env opts w =
       let out := Engine.foldM
                    (Engine.sync_step target env opts
                       (provider.mkWriter (provider.Set_ prov) (provider.Delete prov)))
                    (Engine.mkSyncResult (Target.Name target) env 0 0 0 0 0 [])
                    (TargetDiff.Diffs diff) wp in
       (Ok out.1, out.2).
Proof.
  intros Hd Hp. pose proof Hp as Hinv.
  apply Preview_Ok_inv in Hinv as (prov & l & s & Hc & _).
  exists prov. split; [done|].
  unfold Engine.Sync, Engine.bind. rewrite Hp, Hd, Hc. simpl.
  unfold Engine.ret. by destruct (Engine.foldM _ _ _ _).
Qed.

(** The diffs of [Preview] hold no Remove entry. *)
Lemma Preview_no_remove (names : list string) (src : source.Source)
    (target : Target.t) (env : string) (w wp : World) (diff : TargetDiff.t) :
  Preview names src target env w = (Ok diff, wp) ->
  Count (has_type DiffRemove) (TargetDiff.Diffs diff) = 0%Z.
Proof.
  intros Hp. apply Preview_Ok_inv in Hp as (prov & l & s & _ & _ & _ & ->). simpl.
  unfold Count. rewrite (proj2 (List.length_zero_iff_nil _)); [done|].
  destruct (List.filter _ _) as [|d ds] eqn:Hf; [done|]. exfalso.
  assert (List.In d (List.filter (has_type DiffRemove)
    (FilterSecretNames names target ≫=
       entry_of (source.GetAll src (FilterSecretNames names target))
         (Engine.build_remoteMap l)
         (provider.IsWriteOnly registry (Target.Type_ target)) env))) as Hin
    by (rewrite Hf; by left).
  apply List.filter_In in Hin as [Hin Hty].
  apply list_elem_of_In, elem_of_entries in Hin as (n & v & _ & _ & _ & ->).
  unfold has_type in Hty. apply bool_decide_eq_true in Hty. simpl in Hty.
  by apply classify_not_remove in Hty.
Qed.

Lemma Count_set_failed (env : string) (wr : list SecretDiff.t)
    (errs : list (option error)) :
  Count Engine.set_failed (zip_with (set_call env) wr errs) =
  Count write_failed (zip wr errs).
Proof.
  revert errs. induction wr as [|d wr IH]; intros [|e errs]; try done.
  simpl zip_with. rewrite !Count_cons, IH. by destruct e.
Qed.

Lemma filter_is_write_sets (env : string) (wr : list SecretDiff.t)
    (errs : list (option error)) :
  List.filter Engine.is_write (zip_with (set_call env) wr errs) =
  zip_with (set_call env) wr errs.
Proof.
  revert errs. induction wr as [|d wr IH]; intros [|e errs]; try done.
  simpl. by rewrite IH.
Qed.

Lemma filter_is_delete_sets (env : string) (wr : list SecretDiff.t)
    (errs : list (option error)) :
  List.filter Engine.is_delete (zip_with (set_call env) wr errs) = [].
Proof.
  revert errs. induction wr as [|d wr IH]; intros [|e errs]; try done.
  simpl. by rewrite IH.
Qed.

(** A non-dry-run [Sync] whose preview succeeded: the result, the calls and
    the remote state, in terms of the errors returned by the set calls. *)
Lemma Sync_apply_spec (names : list string) (src : source.Source)
    (target : Target.t) (env : string) (opts : @Engine.SyncOptions U)
    (w wp : World) (diff : TargetDiff.t) :
  Engine.DryRun opts = false ->
  Preview names src target env w = (Ok diff, wp) ->
  exists prov r w',
    createProvider target = Ok prov
    /\ Sync names src target env opts w = (Ok r, w')
    /\ let wr := List.filter writable (TargetDiff.Diffs diff) in
       let writer := provider.mkWriter (provider.Set_ prov) (provider.Delete prov) in
       let errs := (run_sets writer env wr (Engine.remote wp)).1 in
       length errs = length wr
       /\ Engine.remote w' = (run_sets writer env wr (Engine.remote wp)).2
       /\ Engine.calls w' = Engine.calls wp ++ zip_with (set_call env) wr errs
       /\ Engine.Added r = Count (written_as DiffAdd) (zip wr errs)
       /\ Engine.Changed r = Count (written_as DiffChange) (zip wr errs)
       /\ Engine.Unchanged r = Count (has_type DiffUnchanged) (TargetDiff.Diffs diff)
       /\ Engine.Unknown r = Count (written_as DiffUnknown) (zip wr errs)
       /\ Engine.Failed r = Count write_failed (zip wr errs)
       /\ Engine.Errors r = omap name_tagged (zip wr errs)
       /\ (Engine.Added r + Engine.Changed r + Engine.Unchanged r
           + Engine.Unknown r + Engine.Failed r
           = Z.of_nat (length (TargetDiff.Diffs diff)))%Z.
Proof.
  intros Hd Hp. destruct (Sync_apply _ _ _ _ _ _ _ _ Hd Hp) as (prov & Hc & Hs).
  cbv zeta in Hs. eexists prov, _, _. split; [done|]. split; [exact Hs|].
  set (writer := provider.mkWriter (provider.Set_ prov) (provider.Delete prov)).
  set (r0 := Engine.mkSyncResult (Target.Name target) env 0 0 0 0 0 []).
  pose proof (sync_loop_spec target env opts writer (TargetDiff.Diffs diff) r0 wp)
    as (L1 & L2 & _ & _ & L5 & L6 & L7 & L8 & L9 & L10).
  pose proof (sync_loop_total target env opts writer (TargetDiff.Diffs diff) r0 wp)
    as Ltot.
  pose proof (Preview_no_remove _ _ _ _ _ _ _ Hp) as Hrm.
  cbv zeta in *. rewrite Hrm in L6. simpl in L5, L6, L7, L8, L9, L10, Ltot.
  rewrite run_sets_length.
  repeat split; try done; try lia.
Qed.

(** [Preview] makes at most one call, a listing. *)
Lemma Preview_calls (names : list string) (src : source.Source)
    (target : Target.t) (env : string) (w : World) :
  exists new,
    Engine.calls (Preview names src target env w).2 = Engine.calls w ++ new
    /\ List.filter Engine.is_write new = []
    /\ List.filter Engine.is_delete new = [].
Proof.
  rewrite Preview_unfold. destruct (createProvider target) as [prov|err].
  - destruct (provider.List prov env (Engine.remote w)) as [[l e] s].
    exists [Engine.CallList env e]. by destruct e.
  - exists []. by rewrite app_nil_r.
Qed.

(** C3. In a non-dry-run [Sync] whose preview succeeded, a set call is made
    for every entry that is not Unchanged, whatever the earlier calls
    returned; [Failed] is the number of set calls that returned an error;
    [Errors] holds, in order, one error per failed call, wrapping the
    store's error behind the secret's name; and [Sync] returns the result,
    not an error. *)
Theorem Sync_write_failure_isolated
    (names : list string) (src : source.Source) (target : Target.t)
    (env : string) (opts : @Engine.SyncOptions U) (w wp : World)
    (diff : TargetDiff.t) :
  Engine.DryRun opts = false ->
  Preview names src target env w = (Ok diff, wp) ->
  exists r w' errs,
    Sync names src target env opts w = (Ok r, w')
    /\ let wr := List.filter writable (TargetDiff.Diffs diff) in
       let sets := zip_with (set_call env) wr errs in
       length errs = length wr
       /\ Engine.calls w' = Engine.calls wp ++ sets
       /\ Engine.Failed r = Count Engine.set_failed sets
       /\ Engine.Errors r = omap name_tagged (zip wr errs).
Proof.
  intros Hd Hp.
  destruct (Sync_apply_spec _ _ _ _ _ _ _ _ Hd Hp)
    as (prov & r & w' & _ & Hs & Hlen & _ & Hcalls & _ & _ & _ & _ & Hf & He & _).
  eexists r, w', _. split; [exact Hs|]. cbv zeta.
  split; [exact Hlen|]. split; [exact Hcalls|]. split; [|exact He].
  by rewrite Count_set_failed.
Qed.

(** C4. Whatever its inputs, [Sync] calls no delete.  Its store writes are,
    when the preview succeeded and the run is not a dry run, one
    [set(name, newValue, remoteEnv)] per entry classified Add, Change or
    Unknown, in the order of the diff, and none otherwise; the Unchanged
    entries are counted in the result. *)
Theorem Sync_never_deletes
    (names : list string) (src : source.Source) (target : Target.t)
    (env : string) (opts : @Engine.SyncOptions U) (w : World) :
  let out := Sync names src target env opts w in
  let pre := Preview names src target env w in
  exists new,
    Engine.calls out.2 = Engine.calls w ++ new
    /\ List.filter Engine.is_delete new = []
    /\ match pre.1 with
       | Err err => out.1 = Err err /\ List.filter Engine.is_write new = []
       | Ok diff =>
           let wr := List.filter writable (TargetDiff.Diffs diff) in
           exists r errs,
             out.1 = Ok r
             /\ length errs = length wr
             /\ List.filter Engine.is_write new =
                (if Engine.DryRun opts then []
                 else zip_with (set_call env) wr errs)
             /\ Engine.Unchanged r =
                Count (has_type DiffUnchanged) (TargetDiff.Diffs diff)
       end.
Proof.
  cbv zeta.
  destruct (Preview names src target env w) as [[diff|err] wp] eqn:Hp.
  - pose proof Hp as Hinv.
    apply Preview_Ok_inv in Hinv as (prov & l & s & _ & _ & Hwp & _).
    destruct (Engine.DryRun opts) eqn:Hd.
    + rewrite (Sync_dry _ _ _ _ _ _ _ _ Hd Hp). simpl.
      exists [Engine.CallList env None]. rewrite Hwp. simpl.
      split; [done|]. split; [done|].
      eexists _, (replicate _ None). split; [reflexivity|].
      split; [apply length_replicate|]. split; [done|].
      pose proof (tally_fold (TargetDiff.Diffs diff)
        (Engine.mkSyncResult (Target.Name target) env 0 0 0 0 0 [])) as T.
      cbv zeta in T. destruct T as (_ & _ & _ & _ & T & _). by rewrite T.
    + destruct (Sync_apply_spec _ _ _ _ _ _ _ _ Hd Hp)
        as (prov' & r & w' & _ & Hs & Hlen & _ & Hcalls & _ & _ & Hu & _).
      rewrite Hs. simpl. cbv zeta in Hlen, Hcalls.
      set (errs := (run_sets _ env _ (Engine.remote wp)).1) in Hlen, Hcalls.
      exists (Engine.CallList env None
              :: zip_with (set_call env)
                   (List.filter writable (TargetDiff.Diffs diff)) errs).
      split; [rewrite Hcalls, Hwp; simpl; by rewrite <- app_assoc|].
      simpl. split; [apply filter_is_delete_sets|].
      exists r, errs. split; [done|]. split; [exact Hlen|].
      split; [apply filter_is_write_sets|exact Hu].
  - rewrite (Sync_Err _ _ _ _ _ _ _ _ Hp). simpl.
    rewrite Preview_unfold in Hp.
    destruct (createProvider target) as [prov|err'].
    + destruct (provider.List prov env (Engine.remote w)) as [[l e] s].
      destruct e as [e|]; [|done]. injection Hp as _ <-. simpl.
      by exists [Engine.CallList env (Some e)].
    + injection Hp as _ <-. exists []. by rewrite app_nil_r.
Qed.

(** C5. A dry-run [Sync] leaves the world as [Preview] alone leaves it, so
    it calls neither set nor delete; when the preview succeeded its result
    counts the entries of the diff by classification, with no failure and
    no error recorded; when the preview failed it returns that error. *)
Theorem Sync_dry_run
    (names : list string) (src : source.Source) (target : Target.t)
    (env : string) (opts : @Engine.SyncOptions U) (w : World) :
  Engine.DryRun opts = true ->
  let out := Sync names src target env opts w in
  let pre := Preview names src target env w in
  out.2 = pre.2
  /\ (exists new, Engine.calls out.2 = Engine.calls w ++ new
                  /\ List.filter Engine.is_write new = [])
  /\ match pre.1 with
     | Err err => out.1 = Err err
     | Ok diff =>
         exists r,
           out.1 = Ok r
           /\ Engine.Added r = Count (has_type DiffAdd) (TargetDiff.Diffs diff)
           /\ Engine.Changed r = Count (has_type DiffChange) (TargetDiff.Diffs diff)
           /\ Engine.Unknown r = Count (has_type DiffUnknown) (TargetDiff.Diffs diff)
           /\ Engine.Unchanged r = Count (has_type DiffUnchanged) (TargetDiff.Diffs diff)
           /\ Engine.Failed r = 0%Z
           /\ Engine.Errors r = []
     end.
Proof.
  intros Hd. cbv zeta.
  pose proof (Preview_calls names src target env w) as (new & Hcalls & Hw & _).
  destruct (Preview names src target env w) as [[diff|err] wp] eqn:Hp.
  - rewrite (Sync_dry _ _ _ _ _ _ _ _ Hd Hp). simpl in *.
    split; [done|]. split; [by exists new|].
    eexists. split; [reflexivity|].
    pose proof (tally_fold (TargetDiff.Diffs diff)
      (Engine.mkSyncResult (Target.Name target) env 0 0 0 0 0 [])) as T.
    cbv zeta in T. destruct T as (_ & _ & T1 & T2 & T3 & T4 & T5 & T6).
    rewrite T1, T2, T3, T4, T5, T6. by repeat split.
  - rewrite (Sync_Err _ _ _ _ _ _ _ _ Hp). simpl in *.
    split; [done|]. split; [by exists new|done].
Qed.

(** C10. In a non-dry-run [Sync] over the diff of [Preview], [Unchanged]
    counts the Unchanged entries, [Failed] the entries whose set call
    failed, and [Added], [Changed], [Unknown] the entries of that
    classification whose set call succeeded; the five counters add up to
    the number of entries of the diff. *)
Theorem Sync_counter_partition
    (names : list string) (src : source.Source) (target : Target.t)
    (env : string) (opts : @Engine.SyncOptions U) (w wp : World)
    (diff : TargetDiff.t) :
  Engine.DryRun opts = false ->
  Preview names src target env w = (Ok diff, wp) ->
  exists r w' errs,
    Sync names src target env opts w = (Ok r, w')
    /\ let wr := List.filter writable (TargetDiff.Diffs diff) in
       length errs = length wr
       /\ Engine.calls w' = Engine.calls wp ++ zip_with (set_call env) wr errs
       /\ Engine.Unchanged r = Count (has_type DiffUnchanged) (TargetDiff.Diffs diff)
       /\ Engine.Failed r = Count write_failed (zip wr errs)
       /\ Engine.Added r = Count (written_as DiffAdd) (zip wr errs)
       /\ Engine.Changed r = Count (written_as DiffChange) (zip wr errs)
       /\ Engine.Unknown r = Count (written_as DiffUnknown) (zip wr errs)
       /\ (Engine.Added r + Engine.Changed r + Engine.Unchanged r
           + Engine.Unknown r + Engine.Failed r
           = Z.of_nat (length (TargetDiff.Diffs diff)))%Z.
Proof.
  intros Hd Hp.
  destruct (Sync_apply_spec _ _ _ _ _ _ _ _ Hd Hp)
    as (prov & r & w' & _ & Hs & Hlen & _ & Hcalls & Ha & Hc & Hu & Hk & Hf & _ & Ht).
  eexists r, w', _. split; [exact Hs|]. cbv zeta. by repeat split.
Qed.

(** *** Running [Sync] twice *)

Lemma Count_failed_zero (wr : list SecretDiff.t) (errs : list (option error)) :
  length errs = length wr ->
  Count write_failed (zip wr errs) = 0%Z ->
  Forall (fun e => e = None) errs.
Proof.
  revert errs. induction wr as [|d wr IH]; intros [|e errs] Hlen H0; try done.
  change (zip (d :: wr) (e :: errs)) with ((d, e) :: zip wr errs) in H0.
  rewrite Count_cons in H0.
  pose proof (Count_nonneg write_failed (zip wr errs)).
  destruct e as [e|]; simpl in H0; [lia|].
  constructor; [done|]. apply IH; [by injection Hlen|lia].
Qed.

Lemma Count_zero_of_Forall {A} (p : A -> bool) (l : list A) :
  Forall (fun x => p x = false) l -> Count p l = 0%Z.
Proof.
  induction 1 as [|x l Hx _ IH]; [done|]. by rewrite Count_cons, Hx, IH.
Qed.

Lemma Count_written_as_zero (ty : DiffType.t) (wr : list SecretDiff.t)
    (errs : list (option error)) :
  Forall (fun d => SecretDiff.Type_ d <> ty) wr ->
  Count (written_as ty) (zip wr errs) = 0%Z.
Proof.
  intros Hall. revert errs.
  induction Hall as [|d wr Hd _ IH]; intros [|e errs]; try done.
  simpl zip. rewrite Count_cons, IH. unfold written_as, has_type. simpl.
  by rewrite bool_decide_eq_false_2.
Qed.

(** After set calls that all succeeded, the store holds what it held
    before, overwritten by the values set. *)
Lemma run_sets_view (prov : provider.SyncTarget W)
    (view : W -> string -> gmap string string) (readback : bool) (env : string)
    (wr : list SecretDiff.t) :
  StoreContract prov view readback ->
  forall s,
    let writer := provider.mkWriter (provider.Set_ prov) (provider.Delete prov) in
    Forall (fun e => e = None) (run_sets writer env wr s).1 ->
    view (run_sets writer env wr s).2 env =
    foldl (fun m d => <[SecretDiff.Name d := SecretDiff.NewValue d]> m)
          (view s env) wr.
Proof.
  intros [_ _ _ Hset]. induction wr as [|d wr IH]; intros s; [done|].
  cbv zeta. rewrite run_sets_cons. cbv zeta. simpl fst. simpl snd.
  intros Hall. apply Forall_cons in Hall as [He Hall].
  destruct (provider.Set_ prov (SecretDiff.Name d) (SecretDiff.NewValue d) env s)
    as [e s1] eqn:Hs.
  simpl in He, Hall |- *. subst e. rewrite (IH s1 Hall).
  by rewrite (Hset _ _ _ _ _ Hs).
Qed.

Lemma foldl_insert_lookup (wr : list SecretDiff.t) (k v : string) :
  (forall d, d ∈ wr -> SecretDiff.Name d = k -> SecretDiff.NewValue d = v) ->
  forall m : gmap string string,
    m !! k = Some v \/ (exists d, d ∈ wr /\ SecretDiff.Name d = k) ->
    foldl (fun m d => <[SecretDiff.Name d := SecretDiff.NewValue d]> m) m wr !! k
    = Some v.
Proof.
  induction wr as [|d wr IH]; intros Hval m Hm; simpl.
  - destruct Hm as [?|(d & Hd & _)]; [done|]. by apply elem_of_nil in Hd.
  - apply IH; [intros d' Hd'; apply Hval; by right|].
    destruct (decide (SecretDiff.Name d = k)) as [Hk|Hk].
    + left. rewrite <- Hk at 1. rewrite lookup_insert_eq. f_equal.
      apply Hval; [left|done].
    + rewrite lookup_insert_ne by done.
      destruct Hm as [?|(d' & Hd' & Hn)]; [by left|].
      apply elem_of_cons in Hd' as [->|Hd']; [done|]. right. by exists d'.
Qed.

(** C9. Let a non-dry-run [Sync] against a store that keeps what is set
    and lists what it keeps end with no failed write.  Then a second
    [Preview] of the same names and local values, if its listing succeeds,
    returns a diff with an entry for every filtered name that has a local
    value, and every entry is Unchanged when the platform reads values
    back, Unknown when it is write-only; in both cases without any Add or
    Change entry, and a second [Sync] adds and changes nothing. *)
Theorem Sync_idempotent
    (names : list string) (src : source.Source) (target : Target.t)
    (env : string) (opts : @Engine.SyncOptions U) (w w1 : World)
    (r : Engine.SyncResult) (prov : provider.SyncTarget W)
    (view : W -> string -> gmap string string) :
  let writeOnly := provider.IsWriteOnly registry (Target.Type_ target) in
  Engine.DryRun opts = false ->
  createProvider target = Ok prov ->
  StoreContract prov view (negb writeOnly) ->
  Sync names src target env opts w = (Ok r, w1) ->
  Engine.Failed r = 0%Z ->
  (provider.List prov env (Engine.remote w1)).1.2 = None ->
  exists diff2 w2,
    Preview names src target env w1 = (Ok diff2, w2)
    /\ Forall (fun d => SecretDiff.Type_ d =
                        if writeOnly then DiffUnknown else DiffUnchanged)
         (TargetDiff.Diffs diff2)
    /\ (forall name v,
          name ∈ FilterSecretNames names target ->
          source.GetAll src (FilterSecretNames names target) !! name = Some v ->
          v <> ""%string ->
          exists d, d ∈ TargetDiff.Diffs diff2 /\ SecretDiff.Name d = name)
    /\ Count (has_type DiffAdd) (TargetDiff.Diffs diff2) = 0%Z
    /\ Count (has_type DiffChange) (TargetDiff.Diffs diff2) = 0%Z
    /\ forall opts2, exists r2 w3,
         Sync names src target env opts2 w1 = (Ok r2, w3)
         /\ Engine.Added r2 = 0%Z /\ Engine.Changed r2 = 0%Z.
Proof.
  intros writeOnly Hd Hc Hcontract Hs Hfail Hlist2.
  destruct (Preview names src target env w) as [[diff1|e] wp] eqn:Hp;
    [|by rewrite (Sync_Err _ _ _ _ _ _ _ _ Hp) in Hs].
  destruct (Sync_apply_spec _ _ _ _ _ _ _ _ Hd Hp)
    as (prov' & r' & w' & Hc' & Hs' & Hlen & Hrem & _ & _ & _ & _ & _ & Hf & _).
  rewrite Hs in Hs'. injection Hs' as <- <-.
  rewrite Hc in Hc'. injection Hc' as <-. cbv zeta in Hlen, Hrem, Hf.
  apply Preview_Ok_inv in Hp as (prov' & l1 & s1 & Hc' & Hl1 & -> & ->).
  rewrite Hc in Hc'. injection Hc' as <-. simpl in Hlen, Hrem, Hf.
  fold writeOnly in Hlen, Hrem, Hf.
  set (filtered := FilterSecretNames names target) in *.
  set (sv := source.GetAll src filtered) in *.
  set (rm1 := Engine.build_remoteMap l1) in *.
  set (diffs1 := filtered ≫= entry_of sv rm1 writeOnly env) in *.
  set (wr := List.filter writable diffs1) in *.
  rewrite Hfail in Hf. symmetry in Hf.
  apply (Count_failed_zero _ _ Hlen) in Hf.
  pose proof (run_sets_view prov view _ env wr Hcontract s1 Hf) as Hview.
  cbv zeta in Hview. rewrite <- Hrem in Hview.
  pose proof Hcontract as [Hlv Hln Hlvals _].
  rewrite (Hlv _ _ _ _ Hl1) in Hview.
  (* what the store holds after the first run *)
  assert (forall name v, name ∈ filtered -> sv !! name = Some v -> v <> ""%string ->
            view (Engine.remote w1) env !! name = Some v) as Hheld.
  { intros name v Hin Hv Hne. rewrite Hview. apply foldl_insert_lookup.
    - intros d Hdin Hname. apply list_elem_of_In, List.filter_In in Hdin as [Hdin _].
      apply list_elem_of_In, elem_of_entries in Hdin as (n' & v' & _ & Hv' & _ & ->).
      simpl in *. subst n'. congruence.
    - set (d1 := SecretDiff.mk name
                   (Engine.classify writeOnly (comma_ok (rm1 !! name)).2 v
                      (comma_ok (rm1 !! name)).1)
                   (comma_ok (rm1 !! name)).1 v env false).
      assert (d1 ∈ diffs1) as Hd1 by (apply elem_of_entries; by exists name, v).
      destruct (writable d1) eqn:Hwd.
      + right. exists d1. split; [|done].
        apply list_elem_of_In, List.filter_In. split; [by apply list_elem_of_In|done].
      + left. unfold writable, d1, Engine.classify in Hwd. simpl in Hwd.
        destruct writeOnly eqn:Hwo; simpl in Hwd, Hlvals;
          destruct (rm1 !! name) as [rv|] eqn:Hrv; simpl in Hwd; try done.
        case_bool_decide as Heq; simpl in Hwd; [|done]. subst rv.
        rewrite <- (Hlvals _ _ _ _ eq_refl Hl1). exact Hrv. }
  (* the second run *)
  destruct (provider.List prov env (Engine.remote w1)) as [[l2 e2] s2] eqn:Hl2.
  simpl in Hlist2. subst e2.
  assert (forall d,
    d ∈ filtered ≫= entry_of sv (Engine.build_remoteMap l2) writeOnly env ->
    SecretDiff.Type_ d = if writeOnly then DiffUnknown else DiffUnchanged) as Hty.
  { intros d Hdin. apply elem_of_entries in Hdin as (name & v & Hin & Hv & Hne & ->).
    simpl. pose proof (Hheld name v Hin Hv Hne) as Hh. unfold Engine.classify.
    destruct writeOnly eqn:Hwo; simpl in Hlvals |- *.
    - assert (is_Some (Engine.build_remoteMap l2 !! name)) as [rv Hrv].
      { apply elem_of_dom. rewrite (Hln _ _ _ _ Hl2). apply elem_of_dom. by eexists. }
      by rewrite Hrv.
    - rewrite (Hlvals _ _ _ _ eq_refl Hl2), Hh. simpl. by rewrite bool_decide_eq_true_2. }
  assert (Preview names src target env w1 =
          (Ok (TargetDiff.mk (Target.Name target) (Target.Type_ target)
                 (Target.GetProject target)
                 (filtered ≫= entry_of sv (Engine.build_remoteMap l2) writeOnly env)),
           Engine.mkWorld s2 (Engine.ui w1)
             (Engine.calls w1 ++ [Engine.CallList env None]))) as Hp2.
  { rewrite Preview_unfold, Hc, Hl2. reflexivity. }
  eexists _, _. split; [exact Hp2|]. simpl.
  assert (Forall (fun d => SecretDiff.Type_ d =
                           if writeOnly then DiffUnknown else DiffUnchanged)
            (filtered ≫= entry_of sv (Engine.build_remoteMap l2) writeOnly env))
    as Hall by (apply Forall_forall; exact Hty).
  assert (forall ty, ty = DiffAdd \/ ty = DiffChange ->
            Forall (fun d => SecretDiff.Type_ d <> ty)
              (filtered ≫= entry_of sv (Engine.build_remoteMap l2) writeOnly env))
    as Hnot.
  { intros ty Hcase. eapply Forall_impl; [exact Hall|]. simpl. intros d ->.
    destruct writeOnly, Hcase; by subst. }
  assert (forall ty, ty = DiffAdd \/ ty = DiffChange ->
            Count (has_type ty)
              (filtered ≫= entry_of sv (Engine.build_remoteMap l2) writeOnly env)
            = 0%Z) as Hzero.
  { intros ty Hcase. apply Count_zero_of_Forall.
    eapply Forall_impl; [exact (Hnot ty Hcase)|]. simpl. intros d Hne.
    unfold has_type. by apply bool_decide_eq_false_2. }
  split; [exact Hall|]. split.
  { intros name v Hin Hv Hne. eexists. split.
    - apply elem_of_entries. exists name, v.
      split; [done|]. split; [done|]. split; [done|]. reflexivity.
    - reflexivity. }
  split; [apply Hzero; by left|]. split; [apply Hzero; by right|].
  intros opts2. destruct (Engine.DryRun opts2) eqn:Hd2.
  - rewrite (Sync_dry _ _ _ _ _ _ _ _ Hd2 Hp2). eexists _, _. split; [reflexivity|].
    pose proof (tally_fold
      (filtered ≫= entry_of sv (Engine.build_remoteMap l2) writeOnly env)
      (Engine.mkSyncResult (Target.Name target) env 0 0 0 0 0 [])) as T.
    cbv zeta in T. destruct T as (_ & _ & T1 & T2 & _). simpl.
    rewrite T1, T2, !Hzero; auto.
  - destruct (Sync_apply_spec _ _ _ _ _ _ _ _ Hd2 Hp2)
      as (prov2 & r2 & w3 & _ & Hs2 & _ & _ & _ & Ha & Hch & _).
    exists r2, w3. split; [exact Hs2|]. cbv zeta in Ha, Hch. simpl in Ha, Hch.
    rewrite Ha, Hch.
    split; apply Count_written_as_zero; apply Forall_forall; intros d Hdin;
      apply list_elem_of_In, List.filter_In in Hdin as [Hdin _];
      apply list_elem_of_In in Hdin.
    + pose proof (Hnot DiffAdd (or_introl eq_refl)) as Hn.
      rewrite Forall_forall in Hn. by apply Hn.
    + pose proof (Hnot DiffChange (or_intror eq_refl)) as Hn.
      rewrite Forall_forall in Hn. by apply Hn.
Qed.

End EngineProps.

(** ** The mock store keeps its contract *)

Lemma build_remoteMap_app (l1 l2 : list SecretValue.t) :
  Engine.build_remoteMap (l1 ++ l2) =
  foldl (fun m s => <[SecretValue.Name s := SecretValue.Value s]> m)
        (Engine.build_remoteMap l1) l2.
Proof. unfold Engine.build_remoteMap. apply foldl_app. Qed.

Lemma build_remoteMap_pairs (env : string) (l : list (string * string)) :
  Engine.build_remoteMap ((fun kv => SecretValue.mk kv.1 kv.2 env) <$> l) =
  list_to_map (reverse l).
Proof.
  induction l as [|kv l IH] using rev_ind; [done|].
  rewrite fmap_app, build_remoteMap_app, IH, reverse_app. reflexivity.
Qed.

Lemma build_remoteMap_map_to_list (env : string) (m : gmap string string) :
  Engine.build_remoteMap
    ((fun kv => SecretValue.mk kv.1 kv.2 env) <$> map_to_list m) = m.
Proof.
  rewrite build_remoteMap_pairs. rewrite <- (list_to_map_to_list m) at 2.
  apply list_to_map_proper.
  - rewrite fmap_reverse, reverse_Permutation. apply NoDup_fst_map_to_list.
  - apply reverse_Permutation.
Qed.

Lemma mock_contract (setErr delErr : option error) (readback : bool) :
  StoreContract (mock.newMockProvider setErr delErr) mock_view readback.
Proof.
  assert (forall env s l s',
    mock.List env s = ((l, None), s') ->
    s' = s /\ Engine.build_remoteMap l = mock_view s env) as Hlist.
  { intros env s l s'. unfold mock.List, mock_view. intros [= <- <-]. split; [done|].
    destruct (s !! env) as [m|]; simpl; [apply build_remoteMap_map_to_list|done]. }
  split; simpl.
  - intros env s l s' H. by apply Hlist in H as [-> _].
  - intros env s l s' H. by apply Hlist in H as [_ ->].
  - intros env s l s' _ H. by apply Hlist in H as [_ ->].
  - intros name value env s s'. unfold mock.Set_, mock_view.
    destruct setErr; [done|]. intros [= <-]. unfold mock.Secrets in *.
    by rewrite lookup_insert_eq.
Qed.

(** ** The engine on the mock store *)

(** [EMPTY], whose local value is the empty string and whose remote value
    is [old], has no entry. *)
Lemma Preview_no_entry_without_local_value_witness :
  exists diff w',
    mockPreview mock.names mock.src (mock.target "mock" [] []) "development"
      (mock.world mock.remote0) = (Ok diff, w')
    /\ forall d, d ∈ TargetDiff.Diffs diff -> SecretDiff.Name d <> "EMPTY"%string.
Proof.
  eexists _, _. split; [vm_compute; reflexivity|].
  eapply (Preview_no_entry_without_local_value glob.Match mock.registry
            mock.Getenv mock.ExpandEnv mock.names mock.src
            (mock.target "mock" [] []) "development" (mock.world mock.remote0)).
  - vm_compute. reflexivity.
  - apply list_elem_of_In. vm_compute. tauto.
  - right. vm_compute. reflexivity.
Defined.

(** [API_KEY], local [v2] and remote [v1] on a platform that reads back, is
    a Change. *)
Lemma Preview_classification_witness :
  exists diff w',
    mockPreview mock.names mock.src (mock.target "mock" [] []) "development"
      (mock.world mock.remote0) = (Ok diff, w')
    /\ (exists d, d ∈ TargetDiff.Diffs diff /\ SecretDiff.Name d = "API_KEY"%string)
    /\ forall d, d ∈ TargetDiff.Diffs diff -> SecretDiff.Name d = "API_KEY"%string ->
         SecretDiff.Type_ d = DiffChange.
Proof.
  destruct (Preview_classification (U := unit) glob.Match mock.registry
              mock.Getenv mock.ExpandEnv mock.names mock.src
              (mock.target "mock" [] []) "development" (mock.world mock.remote0)
              (mock.newMockProvider None None)
              (mock.List "development" mock.remote0).1.1
              mock.remote0)
    as (diff & w' & Hp & H).
  - reflexivity.
  - vm_compute. reflexivity.
  - exists diff, w'. split; [exact Hp|].
    destruct (H "API_KEY"%string "v2"%string) as [Hex Hall].
    + apply list_elem_of_In. vm_compute. tauto.
    + vm_compute. reflexivity.
    + discriminate.
    + split; [exact Hex|]. intros d Hd Hn.
      destruct (Hall d Hd Hn) as (_ & _ & _ & Hchange & _).
      apply (Hchange eq_refl "v1"%string); [vm_compute; reflexivity|discriminate].
Defined.

(** The write of [STRIPE_KEY] fails; [API_KEY] is still written and the
    result is returned. *)
Lemma Sync_write_failure_isolated_witness :
  let pre := mockPreview mock.names mock.src (mock.target "mock-flaky" [] [])
               "development" (mock.world mock.remote0) in
  let diff := diff_of pre.1 in
  exists r w' errs,
    mockSync mock.names mock.src (mock.target "mock-flaky" [] []) "development"
      (mock.opts false) (mock.world mock.remote0) = (Ok r, w')
    /\ let wr := List.filter writable (TargetDiff.Diffs diff) in
       let sets := zip_with (set_call "development") wr errs in
       length errs = length wr
       /\ Engine.calls w' = Engine.calls pre.2 ++ sets
       /\ Engine.Failed r = Count Engine.set_failed sets
       /\ Engine.Errors r = omap name_tagged (zip wr errs).
Proof.
  intros pre diff.
  apply (Sync_write_failure_isolated glob.Match mock.registry mock.Getenv
           mock.ExpandEnv mock.names mock.src (mock.target "mock-flaky" [] [])
           "development" (mock.opts false) (mock.world mock.remote0) pre.2 diff).
  - reflexivity.
  - vm_compute. reflexivity.
Defined.

Example Sync_flaky_result :
  (mockSync mock.names mock.src (mock.target "mock-flaky" [] []) "development"
     (mock.opts false) (mock.world mock.remote0)).1
  = Ok (Engine.mkSyncResult "test-target" "development" 0 1 0 0 1
          [wrapError "STRIPE_KEY: set failed" (errorString "set failed")]).
Proof. vm_compute. reflexivity. Qed.

Example Sync_flaky_calls :
  Engine.calls
    (mockSync mock.names mock.src (mock.target "mock-flaky" [] []) "development"
       (mock.opts false) (mock.world mock.remote0)).2
  = [Engine.CallList "development" None;
     Engine.CallSet "API_KEY" "v2" "development" None;
     Engine.CallSet "STRIPE_KEY" "sk" "development"
       (Some (errorString "set failed"))].
Proof. vm_compute. reflexivity. Qed.

(** A dry run on a write-only platform: scenario 4. *)
Lemma Sync_dry_run_witness :
  let out := mockSync mock.names mock.src (mock.target "mock-writeonly" [] [])
               "development" (mock.opts true) (mock.world mock.remote0) in
  let pre := mockPreview mock.names mock.src (mock.target "mock-writeonly" [] [])
               "development" (mock.world mock.remote0) in
  out.2 = pre.2
  /\ (exists new, Engine.calls out.2 = Engine.calls (mock.world mock.remote0) ++ new
                  /\ List.filter Engine.is_write new = []).
Proof.
  intros out pre.
  destruct (Sync_dry_run glob.Match mock.registry mock.Getenv mock.ExpandEnv
              mock.names mock.src (mock.target "mock-writeonly" [] [])
              "development" (mock.opts true) (mock.world mock.remote0) eq_refl)
    as (H1 & H2 & _).
  split; [exact H1|exact H2].
Defined.

Example Sync_dry_run_writeonly :
  (mockSync mock.names mock.src (mock.target "mock-writeonly" [] []) "development"
     (mock.opts true) (mock.world mock.remote0)).1
  = Ok (Engine.mkSyncResult "test-target" "development" 1 0 0 1 0 []).
Proof. vm_compute. reflexivity. Qed.

(** An unknown platform, a platform without its token, and a platform that
    cannot be listed. *)
Lemma Preview_error_atomic_witness :
  mockPreview mock.names mock.src (mock.target "nope" [] []) "development"
    (mock.world mock.remote0)
  = (Err (errorString "unknown provider: nope"), mock.world mock.remote0)
  /\ mockPreview mock.names mock.src
       (Target.mk "t" "mock-token" None (SecretsFilter.mk [] []) None) "development"
       (mock.world mock.remote0)
     = (Err (wrapError "authentication failed for t: credentials not found"
               (errorString "credentials not found")), mock.world mock.remote0)
  /\ exists w',
       mockPreview mock.names mock.src (mock.target "mock-down" [] []) "development"
         (mock.world mock.remote0)
       = (Err (wrapError "failed to list secrets from test-target: connection refused"
                 (errorString "connection refused")), w').
Proof.
  split; [|split].
  - apply (Preview_error_atomic glob.Match mock.registry mock.Getenv mock.ExpandEnv
             mock.names mock.src (mock.target "nope" [] []) "development"
             (mock.world mock.remote0)).
    reflexivity.
  - apply (Preview_error_atomic glob.Match mock.registry mock.Getenv mock.ExpandEnv
             mock.names mock.src
             (Target.mk "t" "mock-token" None (SecretsFilter.mk [] []) None)
             "development" (mock.world mock.remote0)).
    vm_compute. reflexivity.
  - destruct (proj2 (Preview_error_atomic glob.Match mock.registry mock.Getenv
                       mock.ExpandEnv mock.names mock.src
                       (mock.target "mock-down" [] []) "development"
                       (mock.world mock.remote0))
                mock.newDownProvider [] (errorString "connection refused")
                mock.remote0 eq_refl eq_refl) as (w' & Hp & _).
    exists w'. exact Hp.
Defined.

(** After a run that wrote [API_KEY] and [STRIPE_KEY], a second preview
    finds both Unchanged on the mock store, and both Unknown when the
    platform is write-only. *)
Lemma Sync_idempotent_witness :
  let w0 := mock.world mock.remote0 in
  let w1 := (mockSync mock.names mock.src (mock.target "mock" [] []) "development"
               (mock.opts false) w0).2 in
  let w1' := (mockSync mock.names mock.src (mock.target "mock-writeonly" [] [])
                "development" (mock.opts false) w0).2 in
  (exists diff2 w2,
     mockPreview mock.names mock.src (mock.target "mock" [] []) "development" w1
     = (Ok diff2, w2)
     /\ Forall (fun d => SecretDiff.Type_ d = DiffUnchanged) (TargetDiff.Diffs diff2))
  /\ (exists diff2 w2,
     mockPreview mock.names mock.src (mock.target "mock-writeonly" [] [])
       "development" w1'
     = (Ok diff2, w2)
     /\ Forall (fun d => SecretDiff.Type_ d = DiffUnknown) (TargetDiff.Diffs diff2)).
Proof.
  intros w0 w1 w1'. split.
  - destruct (Sync_idempotent glob.Match mock.registry mock.Getenv mock.ExpandEnv
                mock.names mock.src (mock.target "mock" [] []) "development"
                (mock.opts false) w0 w1
                (result_of (mockSync mock.names mock.src (mock.target "mock" [] [])
                              "development" (mock.opts false) w0).1)
                (mock.newMockProvider None None) mock_view)
      as (diff2 & w2 & Hp & Hall & _).
    + reflexivity.
    + reflexivity.
    + apply mock_contract.
    + vm_compute. reflexivity.
    + vm_compute. reflexivity.
    + reflexivity.
    + exists diff2, w2. split; [exact Hp|exact Hall].
  - destruct (Sync_idempotent glob.Match mock.registry mock.Getenv mock.ExpandEnv
                mock.names mock.src (mock.target "mock-writeonly" [] [])
                "development" (mock.opts false) w0 w1'
                (result_of (mockSync mock.names mock.src
                              (mock.target "mock-writeonly" [] [])
                              "development" (mock.opts false) w0).1)
                (mock.newMockProvider None None) mock_view)
      as (diff2 & w2 & Hp & Hall & _).
    + reflexivity.
    + reflexivity.
    + apply mock_contract.
    + vm_compute. reflexivity.
    + vm_compute. reflexivity.
    + reflexivity.
    + exists diff2, w2. split; [exact Hp|exact Hall].
Defined.

Example second_preview_on_mock :
  let w1 := (mockSync mock.names mock.src (mock.target "mock" [] []) "development"
               (mock.opts false) (mock.world mock.remote0)).2 in
  TargetDiff.Diffs <$>
    (match (mockPreview mock.names mock.src (mock.target "mock" [] [])
              "development" w1).1 with Ok d => Some d | Err _ => None end)
  = Some [SecretDiff.mk "API_KEY" DiffUnchanged "v2" "v2" "development" false;
          SecretDiff.mk "STRIPE_KEY" DiffUnchanged "sk" "sk" "development" false].
Proof. vm_compute. reflexivity. Qed.

(** The counters of the run against the flaky store: one Change written,
    one Add failed, two entries. *)
Lemma Sync_counter_partition_witness :
  let pre := mockPreview mock.names mock.src (mock.target "mock-flaky" [] [])
               "development" (mock.world mock.remote0) in
  let diff := diff_of pre.1 in
  exists r w',
    mockSync mock.names mock.src (mock.target "mock-flaky" [] []) "development"
      (mock.opts false) (mock.world mock.remote0) = (Ok r, w')
    /\ (Engine.Added r + Engine.Changed r + Engine.Unchanged r
        + Engine.Unknown r + Engine.Failed r
        = Z.of_nat (length (TargetDiff.Diffs diff)))%Z.
Proof.
  intros pre diff.
  destruct (Sync_counter_partition glob.Match mock.registry mock.Getenv
              mock.ExpandEnv mock.names mock.src (mock.target "mock-flaky" [] [])
              "development" (mock.opts false) (mock.world mock.remote0) pre.2 diff)
    as (r & w' & errs & Hs & _ & _ & _ & _ & _ & _ & _ & Ht).
  - reflexivity.
  - vm_compute. reflexivity.
  - exists r, w'. split; [exact Hs|exact Ht].
Defined.

(** The spec's scenarios 1 to 3 on the mock store. *)
Example scenario_1_add :
  (mockSync ["API_KEY"%string]
     (source.tableSource "local" (<["API_KEY"%string := "v1"%string]> ∅))
     (mock.target "mock" [] []) "development" (mock.opts false) (mock.world ∅))
  = (Ok (Engine.mkSyncResult "test-target" "development" 1 0 0 0 0 []),
     Engine.mkWorld (<["development"%string := <["API_KEY"%string := "v1"%string]> ∅]> ∅)
       tt [Engine.CallList "development" None;
           Engine.CallSet "API_KEY" "v1" "development" None]).
Proof. vm_compute. reflexivity. Qed.

Example scenario_2_change :
  (mockPreview ["API_KEY"%string]
     (source.tableSource "local" (<["API_KEY"%string := "v2"%string]> ∅))
     (mock.target "mock" [] []) "development"
     (mock.world (<["development"%string := <["API_KEY"%string := "v1"%string]> ∅]> ∅))).1
  = Ok (TargetDiff.mk "test-target" "mock" ""
          [SecretDiff.mk "API_KEY" DiffChange "v1" "v2" "development" false]).
Proof. vm_compute. reflexivity. Qed.

Example scenario_3_no_delete :
  let remote : mock.Secrets :=
    <["development"%string := <["API_KEY"%string := "old"%string]> ∅]> ∅ in
  (mockSync ["API_KEY"%string] (source.tableSource "local" ∅)
     (mock.target "mock" [] []) "development" (mock.opts false) (mock.world remote))
  = (Ok (Engine.mkSyncResult "test-target" "development" 0 0 0 0 0 []),
     Engine.mkWorld remote tt [Engine.CallList "development" None]).
Proof. vm_compute. reflexivity. Qed.

(** * Further properties *)

(** ** The environments of a target *)

Lemma foldl_snoc_fmap {A B} (f : A -> B) (l : list A) (acc : list B) :
  foldl (fun out x => out ++ [f x]) acc l = acc ++ (f <$> l).
Proof.
  revert acc. induction l as [|x l IH]; intros acc; simpl.
  - by rewrite app_nil_r.
  - rewrite IH. by rewrite <- app_assoc.
Qed.

(** In every execution, [RemoteEnvironments] returns the keys of the mapping
    table: each key once, nothing else, as many names as the table has
    entries (none for a nil table). *)
Theorem RemoteEnvironments_keys (t : Target.t) (kvs : list (string * string)) :
  gomap.range_order (Target.Mapping t) kvs ->
  NoDup (Target.RemoteEnvironments kvs t)
  /\ (forall remote,
        remote ∈ Target.RemoteEnvironments kvs t <->
        is_Some (gomap.index (Target.Mapping t) remote))
  /\ length (Target.RemoteEnvironments kvs t) = gomap.len (Target.Mapping t).
Proof.
  unfold gomap.range_order, Target.RemoteEnvironments, gomap.index, gomap.len.
  intros Hperm. rewrite foldl_snoc_fmap. simpl. split; [|split].
  - rewrite Hperm. apply NoDup_fst_map_to_list.
  - intros remote. rewrite Hperm, list_elem_of_fmap. split.
    + intros ([k v] & -> & Hin). apply elem_of_map_to_list in Hin. by eexists.
    + intros [v Hv]. exists (remote, v). split; [done|].
      by apply elem_of_map_to_list.
  - rewrite length_fmap, Hperm. apply length_map_to_list.
Qed.

Lemma RemoteEnvironments_keys_witness :
  let t := Target.mk "vercel" "mock"
             (Some (<["development"%string := "test"%string]>
                   (<["preview"%string := "test"%string]>
                   (<["production"%string := "live"%string]> ∅))))
             (SecretsFilter.mk [] []) None in
  let kvs := map_to_list (gomap.entries (Target.Mapping t)) in
  NoDup (Target.RemoteEnvironments kvs t)
  /\ length (Target.RemoteEnvironments kvs t) = 3.
Proof.
  intros t kvs.
  destruct (RemoteEnvironments_keys t kvs) as (H1 & _ & H3).
  - unfold gomap.range_order. reflexivity.
  - split; [exact H1|]. rewrite H3. reflexivity.
Defined.

Lemma LocalEnvironments_invariant (kvs : list (string * string)) :
  forall st : gmap string bool * list string,
    (forall x, default false (st.1 !! x) = true <-> x ∈ st.2) ->
    NoDup st.2 ->
    let st' := foldl Target.LocalEnvironments_step st kvs in
    (forall x, default false (st'.1 !! x) = true <-> x ∈ st'.2)
    /\ NoDup st'.2
    /\ (forall x, x ∈ st'.2 <-> x ∈ st.2 \/ x ∈ kvs.*2).
Proof.
  induction kvs as [|kv kvs IH]; intros st Hseen Hnd; simpl.
  - split; [done|]. split; [done|]. intros x. split; [by left|].
    intros [?|Hx]; [done|]. by apply elem_of_nil in Hx.
  - assert (let st1 := Target.LocalEnvironments_step st kv in
            (forall x, default false (st1.1 !! x) = true <-> x ∈ st1.2)
            /\ NoDup st1.2
            /\ (forall x, x ∈ st1.2 <-> x ∈ st.2 \/ x = kv.2)) as (S1 & S2 & S3).
    { unfold Target.LocalEnvironments_step.
      destruct (default false (st.1 !! kv.2)) eqn:Hs; simpl.
      - split; [done|]. split; [done|]. intros x. split; [by left|].
        intros [? | ->]; [done|]. by apply Hseen.
      - split; [|split].
        + intros x. rewrite lookup_insert, elem_of_app, list_elem_of_singleton.
          case_decide as Hx; simpl.
          * subst. split; [by right|done].
          * rewrite Hseen. split; [by left|]. intros [?|?]; [done|congruence].
        + apply NoDup_app. split; [done|]. split; [|apply NoDup_singleton].
          intros x Hx Hx'. apply list_elem_of_singleton in Hx'. subst.
          apply Hseen in Hx. congruence.
        + intros x. by rewrite elem_of_app, list_elem_of_singleton. }
    destruct (IH _ S1 S2) as (I1 & I2 & I3). split; [done|]. split; [done|].
    intros x. rewrite I3, S3, elem_of_cons. tauto.
Qed.

(** In every execution, [LocalEnvironments] returns the local environments
    that the mapping table sends some remote environment to: each once,
    nothing else. *)
Theorem LocalEnvironments_values (t : Target.t) (kvs : list (string * string)) :
  gomap.range_order (Target.Mapping t) kvs ->
  NoDup (Target.LocalEnvironments kvs t)
  /\ (forall local,
        local ∈ Target.LocalEnvironments kvs t <->
        exists remote, gomap.index (Target.Mapping t) remote = Some local).
Proof.
  unfold gomap.range_order, Target.LocalEnvironments, gomap.index. intros Hperm.
  destruct (LocalEnvironments_invariant kvs (∅, [])) as (_ & Hnd & Hin).
  - intros x. simpl. rewrite lookup_empty. simpl. split; [done|].
    by intros ?%elem_of_nil.
  - apply NoDup_nil_2.
  - split; [exact Hnd|]. intros local. rewrite Hin. simpl. split.
    + intros [Hnil|Hv]; [by apply elem_of_nil in Hnil|].
      apply list_elem_of_fmap in Hv as ([r l] & -> & Hrl).
      rewrite Hperm in Hrl. apply elem_of_map_to_list in Hrl. by exists r.
    + intros (remote & Hr). right. apply list_elem_of_fmap.
      exists (remote, local). split; [done|]. rewrite Hperm.
      by apply elem_of_map_to_list.
Qed.

Lemma LocalEnvironments_values_witness :
  let t := Target.mk "vercel" "mock"
             (Some (<["development"%string := "test"%string]>
                   (<["preview"%string := "test"%string]>
                   (<["production"%string := "live"%string]> ∅))))
             (SecretsFilter.mk [] []) None in
  let kvs := map_to_list (gomap.entries (Target.Mapping t)) in
  NoDup (Target.LocalEnvironments kvs t)
  /\ "test"%string ∈ Target.LocalEnvironments kvs t.
Proof.
  intros t kvs.
  destruct (LocalEnvironments_values t kvs) as (H1 & H2).
  - unfold gomap.range_order. reflexivity.
  - split; [exact H1|]. apply H2. exists "preview"%string. reflexivity.
Defined.

(** [MapToRemote] and [MapToLocal] are inverse to each other on the keys of
    the table: a remote environment is returned for a local one exactly
    when it is a key of the table and [MapToLocal] sends it back to that
    local environment. *)
Theorem MapToRemote_MapToLocal (t : Target.t) (kvs : list (string * string))
    (localEnv remote : string) :
  gomap.range_order (Target.Mapping t) kvs ->
  (remote ∈ Target.MapToRemote kvs t localEnv <->
   is_Some (gomap.index (Target.Mapping t) remote)
   /\ Target.MapToLocal t remote = localEnv).
Proof.
  unfold gomap.range_order, Target.MapToRemote. intros Hperm.
  rewrite elem_of_MapToRemote_loop, Hperm, elem_of_map_to_list.
  unfold Target.MapToLocal, gomap.index.
  destruct (gomap.entries (Target.Mapping t) !! remote) as [v|] eqn:Hv; simpl.
  - split.
    + intros Heq. injection Heq as ->. by eauto.
    + by intros [_ ->].
  - split; [done|]. by intros [[? [=]] _].
Qed.

Lemma MapToRemote_MapToLocal_witness :
  let t := Target.mk "vercel" "mock"
             (Some (<["development"%string := "test"%string]>
                   (<["default"%string := "live"%string]> ∅)))
             (SecretsFilter.mk [] []) None in
  let kvs := map_to_list (gomap.entries (Target.Mapping t)) in
  "development"%string ∈ Target.MapToRemote kvs t "test"
  /\ "default"%string ∈ Target.MapToRemote kvs t (Target.MapToLocal t "default").
Proof.
  intros t kvs.
  assert (gomap.range_order (Target.Mapping t) kvs) as Hord
    by (unfold gomap.range_order; reflexivity).
  split.
  - apply (MapToRemote_MapToLocal t kvs "test" "development" Hord).
    split; [by eexists|reflexivity].
  - apply (MapToRemote_MapToLocal t kvs (Target.MapToLocal t "default") "default" Hord).
    split; [by eexists|reflexivity].
Defined.

(** ** Diffs: counting and grouping *)

Lemma has_changes_false (ds : list SecretDiff.t) :
  TargetDiff.has_changes ds = false <->
  Forall (fun d => SecretDiff.Type_ d = DiffUnchanged) ds.
Proof.
  induction ds as [|d ds IH]; simpl; [by split|].
  case_bool_decide as Hd; simpl.
  - rewrite IH. split; [by constructor|]. by intros [_ ?]%Forall_cons.
  - split; [done|]. by intros [? _]%Forall_cons.
Qed.

Lemma Count_types_total (ds : list SecretDiff.t) :
  (Count (has_type DiffAdd) ds + Count (has_type DiffRemove) ds
   + Count (has_type DiffChange) ds + Count (has_type DiffUnchanged) ds
   + Count (has_type DiffUnknown) ds = Z.of_nat (length ds))%Z.
Proof.
  induction ds as [|d ds IH]; [done|].
  rewrite !Count_cons. unfold has_type at 1 3 5 7 9.
  destruct (SecretDiff.Type_ d); simpl length; simpl bool_decide; cbv iota; lia.
Qed.

Lemma CountByType_fold (ds : list SecretDiff.t) (ty : DiffType.t) :
  forall counts : gmap DiffType.t Z,
    let out := foldl (fun counts d =>
                        <[SecretDiff.Type_ d :=
                            (default 0 (counts !! SecretDiff.Type_ d) + 1)%Z]> counts)
                     counts ds in
    default 0%Z (out !! ty) = (default 0 (counts !! ty) + Count (has_type ty) ds)%Z
    /\ (is_Some (out !! ty) <->
        is_Some (counts !! ty) \/ exists d, d ∈ ds /\ SecretDiff.Type_ d = ty).
Proof.
  induction ds as [|d ds IH]; intros counts; simpl.
  - rewrite Count_nil. split; [lia|]. split; [by left|].
    intros [?|(d & Hd & _)]; [done|]. by apply elem_of_nil in Hd.
  - destruct (IH (<[SecretDiff.Type_ d :=
                     (default 0 (counts !! SecretDiff.Type_ d) + 1)%Z]> counts))
      as [I1 I2].
    simpl in I1. rewrite I1, I2, Count_cons, !lookup_insert. unfold has_type.
    clear I1 I2. case_decide as Hd; case_bool_decide; try congruence; subst; simpl.
    + split; [lia|]. split; [|by eauto]. intros _. right. exists d.
      split; [left|done].
    + split; [lia|]. split.
      * intros [?|(d' & Hd' & Ht)]; [by left|]. right. exists d'.
        split; [by right|done].
      * intros [?|(d' & Hd' & Ht)]; [by left|]. right.
        apply elem_of_cons in Hd' as [->|Hd']; [done|]. by exists d'.
Qed.

(** [CountByType] holds, under each classification, the number of entries
    so classified (0 when read at a classification that has no key); a
    classification is a key exactly when some entry carries it; and the
    counts of the five classifications add up to the number of entries. *)
Theorem CountByType_counts (td : TargetDiff.t) :
  let counts ty := default 0%Z (TargetDiff.CountByType td !! ty) in
  (forall ty, counts ty = Count (has_type ty) (TargetDiff.Diffs td))
  /\ (forall ty, is_Some (TargetDiff.CountByType td !! ty) <->
                 exists d, d ∈ TargetDiff.Diffs td /\ SecretDiff.Type_ d = ty)
  /\ (counts DiffAdd + counts DiffRemove + counts DiffChange
      + counts DiffUnchanged + counts DiffUnknown
      = Z.of_nat (length (TargetDiff.Diffs td)))%Z.
Proof.
  cbv zeta. unfold TargetDiff.CountByType.
  assert (forall ty,
    default 0%Z (TargetDiff.CountByType td !! ty)
    = Count (has_type ty) (TargetDiff.Diffs td)) as Hc.
  { intros ty. destruct (CountByType_fold (TargetDiff.Diffs td) ty ∅) as [H _].
    unfold TargetDiff.CountByType. rewrite H, lookup_empty. simpl. lia. }
  unfold TargetDiff.CountByType in Hc. split; [exact Hc|]. split.
  - intros ty. destruct (CountByType_fold (TargetDiff.Diffs td) ty ∅) as [_ H].
    rewrite H, lookup_empty. split; [|by right].
    intros [[? [=]]|?]; done.
  - rewrite !Hc. apply Count_types_total.
Qed.

Lemma GroupByEnvironment_fold (ds : list SecretDiff.t) (env : string) :
  forall grouped : gmap string (list SecretDiff.t),
    let out := foldl (fun grouped d =>
                        <[SecretDiff.Environment d :=
                            default [] (grouped !! SecretDiff.Environment d) ++ [d]]>
                          grouped)
                     grouped ds in
    default [] (out !! env) =
      default [] (grouped !! env)
      ++ List.filter (fun d => bool_decide (SecretDiff.Environment d = env)) ds
    /\ (is_Some (out !! env) <->
        is_Some (grouped !! env)
        \/ exists d, d ∈ ds /\ SecretDiff.Environment d = env).
Proof.
  induction ds as [|d ds IH]; intros grouped; simpl.
  - rewrite app_nil_r. split; [done|]. split; [by left|].
    intros [?|(d & Hd & _)]; [done|]. by apply elem_of_nil in Hd.
  - destruct (IH (<[SecretDiff.Environment d :=
                     default [] (grouped !! SecretDiff.Environment d) ++ [d]]> grouped))
      as [I1 I2].
    simpl in I1. rewrite I1, I2, !lookup_insert. clear I1 I2.
    case_decide as Hd; case_bool_decide; try congruence; subst; simpl.
    + split; [by rewrite <- app_assoc|]. split; [|by eauto]. intros _. right.
      exists d. split; [left|done].
    + split; [done|]. split.
      * intros [?|(d' & Hd' & Ht)]; [by left|]. right. exists d'.
        split; [by right|done].
      * intros [?|(d' & Hd' & Ht)]; [by left|]. right.
        apply elem_of_cons in Hd' as [->|Hd']; [done|]. by exists d'.
Qed.

(** [GroupByEnvironment] holds, under each environment, the entries of that
    environment in the order of the diff; an environment is a key exactly
    when some entry carries it, so no group is empty. *)
Theorem GroupByEnvironment_groups (td : TargetDiff.t) (env : string) :
  default [] (TargetDiff.GroupByEnvironment td !! env)
  = List.filter (fun d => bool_decide (SecretDiff.Environment d = env))
      (TargetDiff.Diffs td)
  /\ (is_Some (TargetDiff.GroupByEnvironment td !! env) <->
      exists d, d ∈ TargetDiff.Diffs td /\ SecretDiff.Environment d = env)
  /\ TargetDiff.GroupByEnvironment td !! env <> Some [].
Proof.
  destruct (GroupByEnvironment_fold (TargetDiff.Diffs td) env ∅) as [H1 H2].
  cbv zeta in H1, H2.
  change (foldl _ ∅ (TargetDiff.Diffs td))
    with (TargetDiff.GroupByEnvironment td) in H1, H2.
  rewrite lookup_empty in H1, H2. simpl in H1.
  assert (is_Some (TargetDiff.GroupByEnvironment td !! env) <->
          exists d, d ∈ TargetDiff.Diffs td /\ SecretDiff.Environment d = env) as H2'.
  { rewrite H2. split; [|by right]. intros [[? [=]]|?]; done. }
  split; [exact H1|]. split; [exact H2'|].
  intros Hnil.
  assert (is_Some (TargetDiff.GroupByEnvironment td !! env)) as Hs
    by (rewrite Hnil; eauto).
  apply H2' in Hs as (d & Hd & He). rewrite Hnil in H1. simpl in H1.
  assert (List.In d (List.filter
    (fun d => bool_decide (SecretDiff.Environment d = env)) (TargetDiff.Diffs td)))
    as Hin.
  { apply List.filter_In. split; [by apply list_elem_of_In|].
    by apply bool_decide_eq_true. }
  by rewrite <- H1 in Hin.
Qed.

(** Every result is counted once: [SuccessCount] and [FailureCount] add up
    to the number of results. *)
Theorem SuccessCount_FailureCount (tsr : TargetSyncResult.t) :
  TargetSyncResult.SuccessCount tsr
  = Count SecretSyncResult.Success (TargetSyncResult.Results tsr)
  /\ (TargetSyncResult.SuccessCount tsr + TargetSyncResult.FailureCount tsr
      = Z.of_nat (length (TargetSyncResult.Results tsr)))%Z.
Proof.
  unfold TargetSyncResult.SuccessCount, TargetSyncResult.FailureCount.
  assert (forall l a b,
    foldl (fun count r => if SecretSyncResult.Success r then (count + 1)%Z else count)
          a l = (a + Count SecretSyncResult.Success l)%Z
    /\ (foldl (fun count r =>
                 if SecretSyncResult.Success r then (count + 1)%Z else count) a l
        + foldl (fun count r =>
                   if negb (SecretSyncResult.Success r) then (count + 1)%Z else count)
                b l
        = a + b + Z.of_nat (length l))%Z) as H.
  { induction l as [|r l IH]; intros a b; simpl.
    - rewrite Count_nil. lia.
    - rewrite Count_cons.
      destruct (SecretSyncResult.Success r); simpl;
        destruct (IH (a + 1)%Z b) as [I1 I2]; destruct (IH a (b + 1)%Z) as [J1 J2];
        destruct (IH a b) as [K1 K2]; lia. }
  destruct (H (TargetSyncResult.Results tsr) 0%Z 0%Z) as [H1 H2]. split; lia.
Qed.

(** ** Secret sets *)

(** Listing a secret set and building the remote map from the listing
    gives back the set, whatever the order of the listing; every listed
    value carries the environment asked for; and [Names] returns each name
    once, [Len] names in all. *)
Theorem SecretSet_round_trip (s : SecretSet.t) (kvs : list (string * string))
    (env : string) :
  kvs ≡ₚ map_to_list (SecretSet.Secrets s) ->
  Engine.build_remoteMap (SecretSet.ToSecretValues kvs s env) = SecretSet.Secrets s
  /\ Forall (fun v => SecretValue.Environment v = env)
       (SecretSet.ToSecretValues kvs s env)
  /\ NoDup (SecretSet.Names kvs s)
  /\ length (SecretSet.Names kvs s) = SecretSet.Len s.
Proof.
  intros Hperm. unfold SecretSet.ToSecretValues, SecretSet.Names, SecretSet.Len.
  rewrite !foldl_snoc_fmap. simpl. split; [|split; [|split]].
  - rewrite build_remoteMap_pairs.
    transitivity (list_to_map (map_to_list (SecretSet.Secrets s)) : gmap string string);
      [|apply list_to_map_to_list].
    apply list_to_map_proper.
    + rewrite fmap_reverse, reverse_Permutation, Hperm. apply NoDup_fst_map_to_list.
    + by rewrite reverse_Permutation.
  - apply Forall_fmap, Forall_forall. by intros.
  - rewrite Hperm. apply NoDup_fst_map_to_list.
  - rewrite length_fmap, Hperm. apply length_map_to_list.
Qed.

Lemma SecretSet_round_trip_witness :
  let s := SecretSet.Set_ (SecretSet.Set_ SecretSet.NewSecretSet "A" "1") "B" "2" in
  Engine.build_remoteMap
    (SecretSet.ToSecretValues (map_to_list (SecretSet.Secrets s)) s "production")
  = SecretSet.Secrets s.
Proof.
  intros s.
  apply (SecretSet_round_trip s (map_to_list (SecretSet.Secrets s)) "production").
  reflexivity.
Defined.

(** ** The filter on lists of names *)

Section FilterListProps.

Variable Match : string -> string -> bool * option error.

Lemma filter_sublist {A} (p : A -> bool) (l : list A) : sublist (List.filter p l) l.
Proof.
  induction l as [|x l IH]; simpl; [constructor|].
  destruct (p x); by constructor.
Qed.

Lemma filter_filter_same {A} (p : A -> bool) (l : list A) :
  List.filter p (List.filter p l) = List.filter p l.
Proof.
  induction l as [|x l IH]; simpl; [done|].
  destruct (p x) eqn:Hp; simpl; [|done]. by rewrite Hp, IH.
Qed.

(** [FilterSecretNames] keeps, in their order, exactly the names that
    [ShouldSyncSecret] accepts; filtering a second time changes nothing;
    and a target without include and exclude patterns keeps every name. *)
Theorem FilterSecretNames_properties (names : list string) (target : Target.t) :
  sublist (filter.FilterSecretNames Match names target) names
  /\ (forall name,
        name ∈ filter.FilterSecretNames Match names target <->
        name ∈ names /\ filter.ShouldSyncSecret Match name target = true)
  /\ filter.FilterSecretNames Match
       (filter.FilterSecretNames Match names target) target
     = filter.FilterSecretNames Match names target
  /\ (SecretsFilter.Include (Target.Secrets target) = [] ->
      SecretsFilter.Exclude (Target.Secrets target) = [] ->
      filter.FilterSecretNames Match names target = names).
Proof.
  rewrite !FilterSecretNames_filter. split; [apply filter_sublist|]. split; [|split].
  - intros name. rewrite !list_elem_of_In. apply List.filter_In.
  - apply filter_filter_same.
  - intros Hi He. induction names as [|n ns IH]; simpl; [done|].
    assert (filter.ShouldSyncSecret Match n target = true) as ->.
    { apply ShouldSyncSecret_true. rewrite Hi, He. by split; [left|]. }
    by rewrite IH.
Qed.

End FilterListProps.

(** ** Sources *)

(** A source over a table returns, of the names asked for, exactly those
    the table has, with the table's values (the empty string included). *)
Theorem table_GetAll_lookup (label : string) (values : gmap string string)
    (names : list string) (name : string) :
  source.GetAll (source.tableSource label values) names !! name
  = if bool_decide (name ∈ names) then values !! name else None.
Proof.
  simpl. unfold source.table_GetAll.
  enough (forall res : gmap string string,
    foldl (fun res name =>
             match values !! name with
             | Some val => <[name := val]> res
             | None => res
             end) res names !! name
    = if bool_decide (name ∈ names) then
        match values !! name with Some v => Some v | None => res !! name end
      else res !! name) as H.
  { rewrite H, lookup_empty. case_bool_decide; [|done]. by destruct (values !! name). }
  induction names as [|n ns IH]; intros res; simpl; [done|].
  rewrite IH. destruct (decide (n = name)) as [->|Hn].
  - rewrite (bool_decide_eq_true_2 (name ∈ name :: ns)) by left.
    destruct (values !! name) as [v|] eqn:Hv.
    + by case_bool_decide; [|rewrite lookup_insert_eq].
    + by case_bool_decide.
  - assert (bool_decide (name ∈ n :: ns) = bool_decide (name ∈ ns)) as ->.
    { apply bool_decide_ext. rewrite elem_of_cons. split; [|by right].
      intros [?|?]; [congruence|done]. }
    destruct (values !! n) as [v|]; [|done].
    by rewrite lookup_insert_ne.
Qed.

(** The environment source returns, of the names asked for, exactly those
    whose variable is not empty; it never holds an empty value. *)
Theorem env_GetAll_lookup (Getenv : string -> string) (names : list string)
    (name value : string) :
  source.GetAll (source.EnvSource Getenv) names !! name = Some value <->
  name ∈ names /\ Getenv name = value /\ value <> ""%string.
Proof.
  simpl. unfold source.env_GetAll.
  enough (forall res : gmap string string,
    foldl (fun res name =>
             if negb (bool_decide (Getenv name = ""%string))
             then <[name := Getenv name]> res else res) res names !! name
    = Some value <->
    (name ∈ names /\ Getenv name = value /\ value <> ""%string)
    \/ (~ (name ∈ names /\ Getenv name <> ""%string) /\ res !! name = Some value))
    as H.
  { rewrite H, lookup_empty. split; [intros [?|[_ [=]]]; done | by left]. }
  induction names as [|n ns IH]; intros res; simpl.
  - split.
    + intros Hr. right. split; [|done]. by intros [?%elem_of_nil _].
    + intros [[?%elem_of_nil _]|[_ ?]]; done.
  - rewrite IH, !elem_of_cons. case_bool_decide as Hn; simpl.
    + split.
      * intros [(? & ? & ?)|[Hnot Hr]]; [left; tauto|]. right. split; [|done].
        intros [[->|?] ?]; [congruence|]. apply Hnot. tauto.
      * intros [([->|?] & ? & ?)|[Hnot Hr]]; [congruence|left; tauto|].
        right. split; [|done]. intros [? ?]. apply Hnot. tauto.
    + destruct (decide (n = name)) as [->|Hne].
      * rewrite lookup_insert_eq. split.
        -- intros [(? & ? & ?)|[Hnot [= <-]]]; [left; tauto|]. left. tauto.
        -- intros [(_ & <- & ?)|[Hnot _]]; [|exfalso; apply Hnot; tauto].
           destruct (decide (name ∈ ns)); [left; tauto|].
           right. split; [tauto|done].
      * rewrite lookup_insert_ne by done. split.
        -- intros [(? & ? & ?)|[Hnot Hr]]; [left; tauto|]. right. split; [|done].
           intros [[->|?] ?]; [done|]. apply Hnot. tauto.
        -- intros [([->|?] & ? & ?)|[Hnot Hr]]; [done|left; tauto|].
           right. split; [|done]. intros [? ?]. apply Hnot. tauto.
Qed.

Lemma map_fold_insert_union {V} (m result : gmap string V) :
  map_fold (fun name val res => <[name := val]> res) result m = m ∪ result.
Proof.
  induction m as [|k v m Hk IH] using map_ind.
  - by rewrite map_fold_empty, (left_id_L ∅ (∪)).
  - rewrite map_fold_insert_L; [|by intros; apply insert_insert_ne|done].
    by rewrite IH, insert_union_l.
Qed.

Lemma combined_GetAll_cons (src : source.Source) (sources : list source.Source)
    (names : list string) :
  source.combined_GetAll (src :: sources) names
  = source.GetAll src names ∪ source.combined_GetAll sources names.
Proof.
  unfold source.combined_GetAll. rewrite reverse_cons, foldl_app. simpl.
  apply map_fold_insert_union.
Qed.

(** In a combined source an earlier source overrides the later ones: the
    value of a name is the one of the first source whose [GetAll] has the
    name, and the name is missing only if every source misses it. *)
Theorem combined_GetAll_first (before after : list source.Source)
    (src : source.Source) (names : list string) (name : string) :
  Forall (fun s => source.GetAll s names !! name = None) before ->
  (is_Some (source.GetAll src names !! name) ->
   source.GetAll (source.CombinedSource (before ++ src :: after)) names !! name
   = source.GetAll src names !! name)
  /\ (source.GetAll src names !! name = None ->
      Forall (fun s => source.GetAll s names !! name = None) after ->
      source.GetAll (source.CombinedSource (before ++ src :: after)) names !! name
      = None).
Proof.
  simpl. intros Hbefore.
  assert (forall l,
    Forall (fun s => source.GetAll s names !! name = None) l ->
    source.combined_GetAll l names !! name = None) as Hnone.
  { induction 1 as [|s l Hs _ IH]; [apply lookup_empty|].
    rewrite combined_GetAll_cons. by apply lookup_union_None. }
  induction Hbefore as [|s l Hs _ IH]; simpl.
  - rewrite combined_GetAll_cons. split.
    + intros [v Hv]. rewrite Hv. by apply lookup_union_Some_l.
    + intros Hn Hafter. apply lookup_union_None. split; [done|]. by apply Hnone.
  - rewrite combined_GetAll_cons. destruct IH as [I1 I2]. split.
    + intros Hsome. rewrite lookup_union_r by done. by apply I1.
    + intros Hn Hafter. rewrite lookup_union_r by done. by apply I2.
Qed.

Lemma combined_GetAll_first_witness :
  let file := source.tableSource ".env.test" (<["API_KEY"%string := "file"%string]> ∅) in
  let env := source.tableSource "environment"
               (<["API_KEY"%string := "env"%string]>
               (<["OTHER"%string := "x"%string]> ∅)) in
  source.GetAll (source.CombinedSource ([] ++ file :: [env]))
    ["API_KEY"; "OTHER"]%string !! "API_KEY"%string
  = Some "file"%string.
Proof.
  intros file env.
  destruct (combined_GetAll_first [] [env] file ["API_KEY"; "OTHER"]%string
              "API_KEY"%string) as [H _].
  - constructor.
  - rewrite H; [reflexivity|]. vm_compute. eauto.
Defined.

(** ** Quoting values of a dotenv file *)








(** A value with a double quote is not read back as written: the escape
    that [quoteIfNeeded] adds is not removed by [unquote]. *)
Example unquote_quoteIfNeeded_escaped :
  source.unquote (source.quoteIfNeeded (String "a" (String source.dquote "b")))
  = String "a" (String "\" (String source.dquote "b")).
Proof. reflexivity. Qed.

(** ** The configuration *)

Lemma has_secret_elem (secrets : list string) (name : string) :
  config.has_secret secrets name = true <-> name ∈ secrets.
Proof.
  induction secrets as [|s secrets IH]; simpl.
  - split; [done|]. by intros ?%elem_of_nil.
  - rewrite elem_of_cons. case_bool_decide; [subst; tauto|].
    rewrite IH. split; [by right|]. intros [?|?]; [congruence|done].
Qed.

(** [AddSecret] keeps the schema free of duplicates: the name is in the
    schema afterwards, the names already there keep their places, a name
    already present changes nothing (so adding twice is adding once), and
    the rest of the configuration is untouched. *)
Theorem AddSecret_schema (c : config.t) (name : string) :
  NoDup (config.Secrets c) ->
  NoDup (config.Secrets (config.AddSecret c name))
  /\ config.HasSecret (config.AddSecret c name) name = true
  /\ config.Secrets c `prefix_of` config.Secrets (config.AddSecret c name)
  /\ (config.HasSecret c name = true -> config.AddSecret c name = c)
  /\ config.AddSecret (config.AddSecret c name) name = config.AddSecret c name
  /\ config.Targets (config.AddSecret c name) = config.Targets c.
Proof.
  intros Hnd. destruct (config.has_secret (config.Secrets c) name) eqn:Hh.
  - assert (config.AddSecret c name = c) as Heq
      by (unfold config.AddSecret, config.HasSecret; by rewrite Hh).
    rewrite !Heq. split; [done|]. split; [exact Hh|]. by repeat split.
  - assert (config.AddSecret c name
            = config.mk (config.Version c) (config.APIKey c) (config.APIURL c)
                (config.Secrets c ++ [name]) (config.Targets c)) as Heq
      by (unfold config.AddSecret, config.HasSecret; by rewrite Hh).
    assert (~ name ∈ config.Secrets c) as Hnot.
    { intros Hin. apply has_secret_elem in Hin. congruence. }
    assert (config.has_secret (config.Secrets c ++ [name]) name = true) as Hnow.
    { apply has_secret_elem, elem_of_app. right. by left. }
    rewrite Heq. simpl. split; [|split; [exact Hnow|split; [by exists [name]|]]].
    + apply NoDup_app. split; [done|]. split; [|apply NoDup_singleton].
      intros x Hx ->%list_elem_of_singleton. done.
    + split; [unfold config.HasSecret; congruence|]. split; [|done].
      unfold config.AddSecret, config.HasSecret. simpl. by rewrite Hnow.
Qed.

Lemma AddSecret_schema_witness :
  let c := config.AddSecret (config.AddSecret config.NewConfig "API_KEY") "DB_URL" in
  config.Secrets (config.AddSecret c "API_KEY") = ["API_KEY"; "DB_URL"]%string
  /\ NoDup (config.Secrets (config.AddSecret c "API_KEY")).
Proof.
  intros c. split; [reflexivity|].
  apply (AddSecret_schema c "API_KEY").
  apply (bool_decide_unpack _). vm_compute. exact I.
Defined.

Lemma lookup_set_field (key val : string) (cfg : gmap string any) (k : string) :
  config.set_field key val cfg !! k =
  if decide (key = k)
  then (if bool_decide (val = ""%string) then cfg !! k else Some (AnyString val))
  else cfg !! k.
Proof.
  unfold config.set_field. case_bool_decide; simpl.
  - by case_decide.
  - apply lookup_insert.
Qed.

Lemma set_field_lookup_ne (key val : string) (cfg : gmap string any) (k : string) :
  key <> k -> config.set_field key val cfg !! k = cfg !! k.
Proof. intros Hne. rewrite lookup_set_field. by case_decide. Qed.

Lemma set_field_lookup_eq (key val : string) (cfg : gmap string any) :
  config.set_field key val cfg !! key =
  if bool_decide (val = ""%string) then cfg !! key else Some (AnyString val).
Proof. rewrite lookup_set_field. by case_decide. Qed.

Ltac set_field_lookup :=
  unfold config.copy_config;
  repeat first [ rewrite set_field_lookup_eq
               | rewrite set_field_lookup_ne by discriminate ];
  rewrite lookup_empty; reflexivity.

(** What [copy_config] holds under the keys read by [GetProject],
    [GetToken] and the credential resolver: the field copied under the key,
    unless it is empty. *)
Lemma copy_config_lookup (def : config.TargetDef) :
  let field (val : string) : option any :=
    if bool_decide (val = ""%string) then None else Some (AnyString val) in
  config.copy_config def !! "project"%string = field (config.Project def)
  /\ config.copy_config def !! "deployment"%string = field (config.Deployment def)
  /\ config.copy_config def !! "service_id"%string = field (config.ServiceID def)
  /\ config.copy_config def !! "project_ref"%string = field (config.ProjectRef def)
  /\ config.copy_config def !! "app_name"%string = field (config.AppName def)
  /\ config.copy_config def !! "account_id"%string = field (config.AccountID def)
  /\ config.copy_config def !! "token"%string = field (config.Token def)
  /\ config.copy_config def !! "deploy_key"%string = field (config.DeployKey def)
  /\ config.copy_config def !! "api_key"%string = None.
Proof. cbv zeta. repeat split; set_field_lookup. Qed.

(** For a target built from a definition of the configuration, the project
    label is the first non-empty field among project, deployment,
    service_id, project_ref, app_name and account_id (project_id is not
    consulted); the token is the [token] field, else [deploy_key]; and the
    credential resolver reads the same token from the target's
    configuration. *)
Theorem GetTarget_project_and_token (c : config.t) (name : string)
    (def : config.TargetDef) :
  gomap.index (config.Targets c) name = Some (Some def) ->
  exists t,
    config.GetTarget c name = Returns (Some t)
    /\ Target.Name t = name
    /\ Target.Type_ t = config.Type_ def
    /\ Target.GetProject t =
       (if negb (bool_decide (config.Project def = ""%string)) then config.Project def
        else if negb (bool_decide (config.Deployment def = ""%string))
        then config.Deployment def
        else if negb (bool_decide (config.ServiceID def = ""%string))
        then config.ServiceID def
        else if negb (bool_decide (config.ProjectRef def = ""%string))
        then config.ProjectRef def
        else if negb (bool_decide (config.AppName def = ""%string))
        then config.AppName def
        else config.AccountID def)
    /\ Target.GetToken t =
       (if negb (bool_decide (config.Token def = ""%string)) then config.Token def
        else config.DeployKey def)
    /\ auth.getTokenFromConfig (Target.Config t) = Target.GetToken t.
Proof.
  intros Hdef. eexists. split; [unfold config.GetTarget; by rewrite Hdef|].
  split; [done|]. split; [done|].
  destruct (copy_config_lookup def) as (P1 & P2 & P3 & P4 & P5 & P6 & K1 & K2 & K3).
  assert (forall k, gomap.index (Target.Config (config.make_target name def)) k
                    = config.copy_config def !! k) as Hidx by done.
  unfold Target.GetProject, Target.GetToken, auth.getTokenFromConfig, auth.firstToken.
  rewrite !Hidx, P1, P2, P3, P4, P5, P6, K1, K2, K3.
  repeat split; repeat (case_bool_decide; simpl; try done); congruence.
Qed.

Lemma GetTarget_project_and_token_witness :
  let def := config.mkTargetDef "convex" "" "happy-otter-123" "" "" "" "" "" "" ""
               "" "" "" "" None [] [] "" "prod:key" in
  let c := config.AddTarget config.NewConfig "backend" (Some def) in
  exists t,
    config.GetTarget c "backend" = Returns (Some t)
    /\ Target.GetProject t = "happy-otter-123"%string
    /\ Target.GetToken t = "prod:key"%string.
Proof.
  intros def c.
  destruct (GetTarget_project_and_token c "backend" def)
    as (t & Ht & _ & _ & Hp & Hk & _); [reflexivity|].
  exists t. split; [exact Ht|]. split; [exact Hp|exact Hk].
Defined.

Lemma GetTargets_loop_spec (kvs : list (string * option config.TargetDef)) :
  forall acc : list Target.t,
    (Forall (fun kv => is_Some kv.2) kvs ->
     config.GetTargets_loop kvs acc =
     Returns (acc ++ omap (fun kv => config.make_target kv.1 <$> kv.2) kvs))
    /\ (config.GetTargets_loop kvs acc = Panics <->
        exists name, (name, None) ∈ kvs).
Proof.
  induction kvs as [|[name [def|]] kvs IH]; intros acc; simpl.
  - rewrite app_nil_r. split; [done|]. split; [done|].
    by intros (n & ?%elem_of_nil).
  - destruct (IH (acc ++ [config.make_target name def])) as [I1 I2]. split.
    + intros [_ Hall]%Forall_cons. rewrite I1 by done. by rewrite <- app_assoc.
    + rewrite I2. split.
      * intros (n & Hn). exists n. by right.
      * intros (n & Hn). apply elem_of_cons in Hn as [[=]|Hn]. by exists n.
  - split.
    + intros [[? [=]] _]%Forall_cons.
    + split; [|done]. intros _. exists name. left.
Qed.

(** [GetTargets] panics exactly when the table holds a nil definition.
    Otherwise it returns one target per entry of the table, under the
    entry's name and in the order of the traversal, and each of them is
    the target that [GetTarget] returns for that name. *)
Theorem GetTargets_GetTarget (c : config.t)
    (kvs : list (string * option config.TargetDef)) :
  gomap.range_order (config.Targets c) kvs ->
  (config.GetTargets kvs c = Panics <->
   exists name, gomap.index (config.Targets c) name = Some None)
  /\ forall targets,
       config.GetTargets kvs c = Returns targets ->
       Target.Name <$> targets = kvs.*1
       /\ NoDup (Target.Name <$> targets)
       /\ forall t, t ∈ targets ->
            config.GetTarget c (Target.Name t) = Returns (Some t).
Proof.
  unfold gomap.range_order, gomap.index, config.GetTargets. intros Hperm.
  destruct (GetTargets_loop_spec kvs []) as [Hret Hpanic]. split.
  - rewrite Hpanic. split; intros (n & Hn); exists n.
    + rewrite Hperm in Hn. by apply elem_of_map_to_list in Hn.
    + rewrite Hperm. by apply elem_of_map_to_list.
  - intros targets Hts.
    assert (Forall (fun kv : string * option config.TargetDef => is_Some kv.2) kvs)
      as Hall.
    { apply Forall_forall. intros [n [d|]] Hin; [by eexists|]. exfalso.
      assert (config.GetTargets_loop kvs [] = Panics) as Hp
        by (apply Hpanic; by exists n).
      congruence. }
    rewrite (Hret Hall) in Hts. injection Hts as <-. simpl.
    assert (Target.Name <$> omap (fun kv : string * option config.TargetDef =>
                                    config.make_target kv.1 <$> kv.2) kvs = kvs.*1)
      as Hnames.
    { clear -Hall. induction Hall as [|[n d] l [def Hd] _ IH]; [done|].
      simpl in Hd. subst d. csimpl. f_equal. exact IH. }
    split; [exact Hnames|]. split.
    + rewrite Hnames, Hperm. apply NoDup_fst_map_to_list.
    + intros t Ht. apply list_elem_of_omap in Ht as ([n d] & Hin & Hmk).
      simpl in Hmk. destruct d as [def|]; [|done]. injection Hmk as <-.
      rewrite Hperm in Hin. apply elem_of_map_to_list in Hin.
      unfold config.GetTarget, gomap.index. simpl. by rewrite Hin.
Qed.

Lemma GetTargets_GetTarget_witness :
  let def := config.mkTargetDef "vercel" "my-app" "" "" "" "" "" "" "" "" "" "" ""
               "" None [] [] "" "" in
  let c := config.AddTarget config.NewConfig "web" (Some def) in
  let kvs := map_to_list (gomap.entries (config.Targets c)) in
  exists targets,
    config.GetTargets kvs c = Returns targets
    /\ Target.Name <$> targets = kvs.*1
    /\ Forall (fun t => config.GetTarget c (Target.Name t) = Returns (Some t)) targets.
Proof.
  intros def c kvs.
  assert (gomap.range_order (config.Targets c) kvs) as Hord
    by (unfold gomap.range_order; reflexivity).
  destruct (GetTargets_GetTarget c kvs Hord) as [_ H].
  exists [config.make_target "web" def].
  assert (config.GetTargets kvs c = Returns [config.make_target "web" def]) as Hret
    by (vm_compute; reflexivity).
  destruct (H _ Hret) as (Hn & _ & Hall).
  split; [exact Hret|]. split; [exact Hn|]. by apply Forall_forall.
Defined.

(** ** More on the engine *)

Section EngineMore.

Context {W U : Type}.
Variable Match : string -> string -> bool * option error.
Variable registry : gmap string (provider.ProviderInfo W).
Variable Getenv : string -> string.
Variable ExpandEnv : string -> string.

Abbreviation createProvider' := (Engine.createProvider registry Getenv ExpandEnv).
Abbreviation Preview' := (@Engine.Preview W U Match registry Getenv ExpandEnv).
Abbreviation Sync' := (@Engine.Sync W U Match registry Getenv ExpandEnv).
Abbreviation Pull' := (@Engine.Pull W U registry Getenv ExpandEnv).
Abbreviation FilterSecretNames' := (filter.FilterSecretNames Match).
Abbreviation World' := (@Engine.World W U).

(** Every entry of a diff returned by [Preview] is for a name of the schema
    that the target's filter accepts, and carries the remote environment,
    the non-empty local value as new value and, as old value, the value
    the listing has for the name (the empty string if it has none); the
    names of the entries follow the order of the schema; and the diff is
    labelled with the target's name, type and project. *)
Theorem Preview_entries
    (names : list string) (src : source.Source) (target : Target.t)
    (env : string) (w w' : World') (diff : TargetDiff.t)
    (prov : provider.SyncTarget W) (l : list SecretValue.t) (s : W) :
  createProvider' target = Ok prov ->
  provider.List prov env (Engine.remote w) = ((l, None), s) ->
  Preview' names src target env w = (Ok diff, w') ->
  (forall d, d ∈ TargetDiff.Diffs diff ->
     SecretDiff.Name d ∈ names
     /\ filter.ShouldSyncSecret Match (SecretDiff.Name d) target = true
     /\ SecretDiff.Environment d = env
     /\ source.GetAll src (FilterSecretNames' names target) !! SecretDiff.Name d
        = Some (SecretDiff.NewValue d)
     /\ SecretDiff.NewValue d <> ""%string
     /\ SecretDiff.OldValue d
        = default ""%string (Engine.build_remoteMap l !! SecretDiff.Name d))
  /\ sublist (SecretDiff.Name <$> TargetDiff.Diffs diff) names
  /\ TargetDiff.TargetName diff = Target.Name target
  /\ TargetDiff.TargetType diff = Target.Type_ target
  /\ TargetDiff.Project diff = Target.GetProject target.
Proof.
  intros Hc Hl Hp.
  apply Preview_Ok_inv in Hp as (prov' & l' & s' & Hc' & Hl' & _ & ->).
  rewrite Hc in Hc'. injection Hc' as <-. rewrite Hl in Hl'. injection Hl' as <- <-.
  simpl. split; [|split; [|done]].
  - intros d Hd. apply elem_of_entries in Hd as (n & v & Hn & Hv & Hne & ->). simpl.
    rewrite FilterSecretNames_filter in Hn.
    apply list_elem_of_In, List.filter_In in Hn as [Hn Hok].
    split; [by apply list_elem_of_In|]. split; [done|]. split; [done|].
    split; [done|]. split; [done|].
    by destruct (Engine.build_remoteMap l !! n).
  - transitivity (FilterSecretNames' names target).
    + generalize (source.GetAll src (FilterSecretNames' names target)).
      intros sv. induction (FilterSecretNames' names target) as [|n ns IH]; simpl;
        [constructor|].
      rewrite fmap_app. unfold entry_of at 1.
      destruct (sv !! n) as [v|]; simpl; [|by constructor].
      case_bool_decide; simpl; by constructor.
    + rewrite FilterSecretNames_filter. apply filter_sublist.
Qed.

(** The store calls that a run of [Sync] adds to the log. *)
Lemma Sync_new_calls
    (names : list string) (src : source.Source) (target : Target.t)
    (env : string) (opts : @Engine.SyncOptions U) (w : World') :
  exists new,
    Engine.calls (Sync' names src target env opts w).2 = Engine.calls w ++ new
    /\ forall c, c ∈ new -> Engine.is_write c = true ->
         exists diff wp d err,
           Preview' names src target env w = (Ok diff, wp)
           /\ Engine.DryRun opts = false
           /\ d ∈ TargetDiff.Diffs diff
           /\ writable d = true
           /\ c = set_call env d err.
Proof.
  pose proof (Preview_calls Match registry Getenv ExpandEnv names src target env w)
    as (pnew & Hpc & Hpw & _).
  destruct (Preview' names src target env w) as [[diff|err] wp] eqn:Hp.
  - destruct (Engine.DryRun opts) eqn:Hd.
    + rewrite (Sync_dry _ _ _ _ _ _ _ _ _ _ _ _ Hd Hp). simpl in *.
      exists pnew. split; [done|]. intros c Hc Hw. exfalso.
      assert (List.In c (List.filter Engine.is_write pnew)) as Hin
        by (apply List.filter_In; split; [by apply list_elem_of_In|done]).
      by rewrite Hpw in Hin.
    + destruct (Sync_apply_spec _ _ _ _ _ _ _ _ _ _ _ _ Hd Hp)
        as (prov & r & w' & _ & Hs & Hlen & _ & Hcalls & _).
      rewrite Hs. simpl in *. cbv zeta in Hlen, Hcalls.
      set (wr := List.filter writable (TargetDiff.Diffs diff)) in *.
      set (errs := (run_sets _ env wr (Engine.remote wp)).1) in *.
      exists (pnew ++ zip_with (set_call env) wr errs).
      split; [by rewrite Hcalls, Hpc, app_assoc|].
      intros c Hc Hw. apply elem_of_app in Hc as [Hc|Hc].
      * exfalso.
        assert (List.In c (List.filter Engine.is_write pnew)) as Hin
          by (apply List.filter_In; split; [by apply list_elem_of_In|done]).
        by rewrite Hpw in Hin.
      * apply elem_of_lookup_zip_with in Hc as (i & d & e & -> & Hd' & _).
        exists diff, wp, d, e. split; [done|]. split; [done|].
        apply list_elem_of_lookup_2 in Hd'.
        apply list_elem_of_In, List.filter_In in Hd' as [Hd' Hwd].
        split; [by apply list_elem_of_In|by split].
  - rewrite (Sync_Err _ _ _ _ _ _ _ _ _ _ _ _ Hp). simpl in *.
    exists pnew. split; [done|]. intros c Hc Hw. exfalso.
    assert (List.In c (List.filter Engine.is_write pnew)) as Hin
      by (apply List.filter_In; split; [by apply list_elem_of_In|done]).
    by rewrite Hpw in Hin.
Qed.

(** Whatever the inputs, every set call that [Sync] makes is for the remote
    environment given, for a name of the schema that the target's filter
    accepts, and writes that name's local value, which is not empty: a
    filtered-out secret or an empty value is never pushed. *)
Theorem Sync_sets_only_filtered_local_values
    (names : list string) (src : source.Source) (target : Target.t)
    (env : string) (opts : @Engine.SyncOptions U) (w : World') :
  exists new,
    Engine.calls (Sync' names src target env opts w).2 = Engine.calls w ++ new
    /\ forall name value env' err,
         Engine.CallSet name value env' err ∈ new ->
         env' = env
         /\ name ∈ names
         /\ filter.ShouldSyncSecret Match name target = true
         /\ source.GetAll src (FilterSecretNames' names target) !! name = Some value
         /\ value <> ""%string.
Proof.
  destruct (Sync_new_calls names src target env opts w) as (new & Hcalls & Hnew).
  exists new. split; [exact Hcalls|]. intros name value env' err Hin.
  destruct (Hnew _ Hin eq_refl) as (diff & wp & d & e & Hp & _ & Hd & _ & Hc).
  injection Hc as -> -> -> ->.
  apply Preview_Ok_inv in Hp as (prov & l & s & _ & _ & _ & ->). simpl in Hd.
  apply elem_of_entries in Hd as (n & v & Hn & Hv & Hne & ->). simpl.
  rewrite FilterSecretNames_filter in Hn.
  apply list_elem_of_In, List.filter_In in Hn as [Hn Hok].
  split; [done|]. split; [by apply list_elem_of_In|]. by repeat split.
Qed.

(** On a platform that reads values back, [Sync] writes no value that the
    listing already holds under the same name. *)
Theorem Sync_no_redundant_write
    (names : list string) (src : source.Source) (target : Target.t)
    (env : string) (opts : @Engine.SyncOptions U) (w : World')
    (prov : provider.SyncTarget W) (l : list SecretValue.t) (s : W) :
  provider.IsWriteOnly registry (Target.Type_ target) = false ->
  createProvider' target = Ok prov ->
  provider.List prov env (Engine.remote w) = ((l, None), s) ->
  exists new,
    Engine.calls (Sync' names src target env opts w).2 = Engine.calls w ++ new
    /\ forall name value env' err,
         Engine.CallSet name value env' err ∈ new ->
         Engine.build_remoteMap l !! name <> Some value.
Proof.
  intros Hwo Hc Hl.
  destruct (Sync_new_calls names src target env opts w) as (new & Hcalls & Hnew).
  exists new. split; [exact Hcalls|]. intros name value env' err Hin.
  destruct (Hnew _ Hin eq_refl) as (diff & wp & d & e & Hp & _ & Hd & Hwd & Hcall).
  injection Hcall as -> -> -> ->.
  apply Preview_Ok_inv in Hp as (prov' & l' & s' & Hc' & Hl' & _ & ->).
  rewrite Hc in Hc'. injection Hc' as <-. rewrite Hl in Hl'. injection Hl' as <- <-.
  simpl in Hd. apply elem_of_entries in Hd as (n & v & _ & _ & _ & ->).
  unfold writable in Hwd. simpl in *. rewrite Hwo in Hwd.
  unfold Engine.classify in Hwd.
  destruct (Engine.build_remoteMap l !! n) as [rv|]; simpl in Hwd; [|done].
  case_bool_decide; simpl in Hwd; [done|congruence].
Qed.

Lemma filter_writable_unchanged (ds : list SecretDiff.t) :
  Forall (fun d => SecretDiff.Type_ d = DiffUnchanged) ds ->
  List.filter writable ds = []
  /\ Count (has_type DiffUnchanged) ds = Z.of_nat (length ds).
Proof.
  induction 1 as [|d ds Hd _ [IH1 IH2]]; [done|]. split.
  - cbn [List.filter]. unfold writable at 1. by rewrite Hd.
  - rewrite Count_cons, IH2. unfold has_type. rewrite Hd. simpl length.
    rewrite bool_decide_eq_true_2 by done. lia.
Qed.

(** When [HasChanges] is false for the diff of [Preview], a non-dry-run
    [Sync] calls no set: it leaves the calls and the remote state as
    [Preview] left them and reports every entry as unchanged. *)
Theorem Sync_without_changes
    (names : list string) (src : source.Source) (target : Target.t)
    (env : string) (opts : @Engine.SyncOptions U) (w wp : World')
    (diff : TargetDiff.t) :
  Engine.DryRun opts = false ->
  Preview' names src target env w = (Ok diff, wp) ->
  TargetDiff.HasChanges diff = false ->
  exists r w',
    Sync' names src target env opts w = (Ok r, w')
    /\ Engine.calls w' = Engine.calls wp
    /\ Engine.remote w' = Engine.remote wp
    /\ Engine.Unchanged r = Z.of_nat (length (TargetDiff.Diffs diff))
    /\ Engine.Added r = 0%Z /\ Engine.Changed r = 0%Z /\ Engine.Unknown r = 0%Z
    /\ Engine.Failed r = 0%Z /\ Engine.Errors r = [].
Proof.
  intros Hd Hp Hno. apply has_changes_false in Hno.
  destruct (filter_writable_unchanged _ Hno) as [Hwr Hcount].
  destruct (Sync_apply_spec _ _ _ _ _ _ _ _ _ _ _ _ Hd Hp)
    as (prov & r & w' & _ & Hs & _ & Hrem & Hcalls & Ha & Hc & Hu & Hk & Hf & He & _).
  cbv zeta in *. rewrite Hwr in *. simpl in *. rewrite app_nil_r in Hcalls.
  exists r, w'. rewrite Hu, Hcount. by repeat split.
Qed.

Lemma SyncResult_eq (r1 r2 : Engine.SyncResult) :
  Engine.TargetName r1 = Engine.TargetName r2 ->
  Engine.Environment r1 = Engine.Environment r2 ->
  Engine.Added r1 = Engine.Added r2 ->
  Engine.Changed r1 = Engine.Changed r2 ->
  Engine.Unchanged r1 = Engine.Unchanged r2 ->
  Engine.Unknown r1 = Engine.Unknown r2 ->
  Engine.Failed r1 = Engine.Failed r2 ->
  Engine.Errors r1 = Engine.Errors r2 ->
  r1 = r2.
Proof. destruct r1, r2. simpl. by intros -> -> -> -> -> -> -> ->. Qed.

(** Progress callbacks only observe: two runs of [Sync] that differ in
    their callback (or have none) return the same result, make the same
    store calls and leave the same remote state. *)
Theorem Sync_progress_observational
    (names : list string) (src : source.Source) (target : Target.t)
    (env : string) (opts1 opts2 : @Engine.SyncOptions U) (w : World') :
  Engine.DryRun opts1 = Engine.DryRun opts2 ->
  (Sync' names src target env opts1 w).1 = (Sync' names src target env opts2 w).1
  /\ Engine.calls (Sync' names src target env opts1 w).2
     = Engine.calls (Sync' names src target env opts2 w).2
  /\ Engine.remote (Sync' names src target env opts1 w).2
     = Engine.remote (Sync' names src target env opts2 w).2.
Proof.
  intros Hdry.
  destruct (Preview' names src target env w) as [[diff|err] wp] eqn:Hp.
  - destruct (Engine.DryRun opts1) eqn:Hd1; symmetry in Hdry.
    + by rewrite (Sync_dry _ _ _ _ _ _ _ _ _ _ _ _ Hd1 Hp),
        (Sync_dry _ _ _ _ _ _ _ _ _ _ _ _ Hdry Hp).
    + destruct (Sync_apply _ _ _ _ _ _ _ _ _ _ _ _ Hd1 Hp) as (prov1 & Hc1 & ->).
      destruct (Sync_apply _ _ _ _ _ _ _ _ _ _ _ _ Hdry Hp) as (prov2 & Hc2 & ->).
      rewrite Hc1 in Hc2. injection Hc2 as <-. cbv zeta. simpl.
      set (writer := provider.mkWriter (provider.Set_ prov1) (provider.Delete prov1)).
      set (r0 := Engine.mkSyncResult (Target.Name target) env 0 0 0 0 0 []).
      pose proof (sync_loop_spec target env opts1 writer (TargetDiff.Diffs diff) r0 wp)
        as (A1 & A2 & A3 & A4 & A5 & A6 & A7 & A8 & A9 & A10).
      pose proof (sync_loop_spec target env opts2 writer (TargetDiff.Diffs diff) r0 wp)
        as (B1 & B2 & B3 & B4 & B5 & B6 & B7 & B8 & B9 & B10).
      cbv zeta in *. split; [|split; congruence].
      f_equal. apply SyncResult_eq; congruence.
  - by rewrite !(Sync_Err _ _ _ _ _ _ _ _ _ _ _ _ Hp).
Qed.

(** [Pull] returns a handle-construction error as it is, without any call;
    a list error wrapped behind ["failed to list secrets: "]; and
    otherwise the whole listing as a map (a name listed twice keeps its
    last value), whatever the target's include and exclude patterns.  It
    never calls set or delete. *)
Theorem Pull_outcomes (target : Target.t) (env : string) (w : World') :
  (forall err, createProvider' target = Err err ->
     Pull' target env w = (Err err, w))
  /\ (forall prov l err s,
        createProvider' target = Ok prov ->
        provider.List prov env (Engine.remote w) = ((l, Some err), s) ->
        (Pull' target env w).1
        = Err (wrapError ("failed to list secrets: " +:+ Error err) err))
  /\ (forall prov l s,
        createProvider' target = Ok prov ->
        provider.List prov env (Engine.remote w) = ((l, None), s) ->
        (Pull' target env w).1 = Ok (Engine.build_remoteMap l)
        /\ Engine.remote (Pull' target env w).2 = s
        /\ forall name,
             is_Some (Engine.build_remoteMap l !! name) <->
             exists sv, sv ∈ l /\ SecretValue.Name sv = name)
  /\ exists new,
       Engine.calls (Pull' target env w).2 = Engine.calls w ++ new
       /\ List.filter Engine.is_write new = [].
Proof.
  unfold Engine.Pull, Engine.bind, Engine.call_List, Engine.ret.
  split; [|split; [|split]].
  - by intros err ->.
  - intros prov l err s -> ->. reflexivity.
  - intros prov l s -> ->. simpl. split; [done|]. split; [done|].
    apply build_remoteMap_is_Some.
  - destruct (createProvider' target) as [prov|err].
    + destruct (provider.List prov env (Engine.remote w)) as [[l e] s].
      exists [Engine.CallList env e]. by destruct e.
    + exists []. by rewrite app_nil_r.
Qed.

Lemma foldl_insert_lookup_other (wr : list SecretDiff.t) (k : string) :
  (forall d, d ∈ wr -> SecretDiff.Name d <> k) ->
  forall m : gmap string string,
    foldl (fun m d => <[SecretDiff.Name d := SecretDiff.NewValue d]> m) m wr !! k
    = m !! k.
Proof.
  induction wr as [|d wr IH]; intros Hne m; simpl; [done|].
  rewrite IH by (intros d' Hd'; apply Hne; by right).
  apply lookup_insert_ne, Hne. left.
Qed.

(** What a store that keeps its contract holds after a non-dry-run [Sync]
    without failed write: what it held before, overwritten by the new
    values of the entries that are not Unchanged. *)
Lemma Sync_view_after
    (names : list string) (src : source.Source) (target : Target.t)
    (env : string) (opts : @Engine.SyncOptions U) (w wp w1 : World')
    (diff : TargetDiff.t) (r : Engine.SyncResult) (prov : provider.SyncTarget W)
    (view : W -> string -> gmap string string) (readback : bool) :
  Engine.DryRun opts = false ->
  createProvider' target = Ok prov ->
  StoreContract prov view readback ->
  Preview' names src target env w = (Ok diff, wp) ->
  Sync' names src target env opts w = (Ok r, w1) ->
  Engine.Failed r = 0%Z ->
  view (Engine.remote w1) env =
  foldl (fun m d => <[SecretDiff.Name d := SecretDiff.NewValue d]> m)
        (view (Engine.remote w) env)
        (List.filter writable (TargetDiff.Diffs diff)).
Proof.
  intros Hd Hc Hcontract Hp Hs Hfail.
  destruct (Sync_apply_spec _ _ _ _ _ _ _ _ _ _ _ _ Hd Hp)
    as (prov' & r' & w' & Hc' & Hs' & Hlen & Hrem & _ & _ & _ & _ & _ & Hf & _).
  rewrite Hs in Hs'. injection Hs' as <- <-.
  rewrite Hc in Hc'. injection Hc' as <-. cbv zeta in Hlen, Hrem, Hf.
  rewrite Hfail in Hf. symmetry in Hf. apply (Count_failed_zero _ _ Hlen) in Hf.
  pose proof (run_sets_view prov view _ env _ Hcontract (Engine.remote wp) Hf) as Hv.
  cbv zeta in Hv. rewrite <- Hrem in Hv. rewrite Hv. f_equal.
  apply Preview_Ok_inv in Hp as (prov' & l1 & s1 & Hc' & Hl1 & -> & _).
  rewrite Hc in Hc'. injection Hc' as <-. simpl.
  destruct Hcontract as [Hlv _ _ _]. exact (Hlv _ _ _ _ Hl1).
Qed.

(** Pulling after pushing: after a non-dry-run [Sync] without failed write
    against a store that keeps what is set and reads it back, [Pull] (if
    its listing succeeds) returns the local value of every filtered name
    that has one, and for every other name what the store held before the
    [Sync]. *)
Theorem Sync_then_Pull
    (names : list string) (src : source.Source) (target : Target.t)
    (env : string) (opts : @Engine.SyncOptions U) (w w1 : World')
    (r : Engine.SyncResult) (prov : provider.SyncTarget W)
    (view : W -> string -> gmap string string) :
  Engine.DryRun opts = false ->
  createProvider' target = Ok prov ->
  StoreContract prov view true ->
  Sync' names src target env opts w = (Ok r, w1) ->
  Engine.Failed r = 0%Z ->
  (provider.List prov env (Engine.remote w1)).1.2 = None ->
  let sourceValues := source.GetAll src (FilterSecretNames' names target) in
  exists pulled w2,
    Pull' target env w1 = (Ok pulled, w2)
    /\ (forall name v,
          name ∈ FilterSecretNames' names target ->
          sourceValues !! name = Some v -> v <> ""%string ->
          pulled !! name = Some v)
    /\ (forall name,
          (forall v, name ∈ FilterSecretNames' names target ->
                     sourceValues !! name = Some v -> v = ""%string) ->
          pulled !! name = view (Engine.remote w) env !! name).
Proof.
  intros Hd Hc Hcontract Hs Hfail Hlist2 sv.
  destruct (Preview' names src target env w) as [[diff1|e] wp] eqn:Hp;
    [|by rewrite (Sync_Err _ _ _ _ _ _ _ _ _ _ _ _ Hp) in Hs].
  pose proof (Sync_view_after _ _ _ _ _ _ _ _ _ _ _ _ _ Hd Hc Hcontract Hp Hs Hfail)
    as Hview.
  pose proof Hcontract as [_ _ Hlvals _].
  apply Preview_Ok_inv in Hp as (prov' & l1 & s1 & Hc' & Hl1 & _ & ->).
  rewrite Hc in Hc'. injection Hc' as <-. simpl in Hview.
  set (filtered := FilterSecretNames' names target) in *.
  set (wo := provider.IsWriteOnly registry (Target.Type_ target)) in *.
  set (rm1 := Engine.build_remoteMap l1) in *.
  destruct (provider.List prov env (Engine.remote w1)) as [[l2 e2] s2] eqn:Hl2.
  simpl in Hlist2. subst e2.
  exists (Engine.build_remoteMap l2),
    (Engine.mkWorld s2 (Engine.ui w1) (Engine.calls w1 ++ [Engine.CallList env None])).
  split.
  { unfold Engine.Pull, Engine.bind, Engine.call_List, Engine.ret.
    by rewrite Hc, Hl2. }
  rewrite (Hlvals _ _ _ _ eq_refl Hl2), Hview. split.
  - intros name v Hin Hv Hne. apply foldl_insert_lookup.
    + intros d Hdin Hname. apply list_elem_of_In, List.filter_In in Hdin as [Hdin _].
      apply list_elem_of_In, elem_of_entries in Hdin as (n' & v' & _ & Hv' & _ & ->).
      simpl in *. subst n'. fold sv in Hv'. congruence.
    + set (d1 := SecretDiff.mk name
                   (Engine.classify wo (comma_ok (rm1 !! name)).2 v
                      (comma_ok (rm1 !! name)).1)
                   (comma_ok (rm1 !! name)).1 v env false).
      assert (d1 ∈ filtered ≫= entry_of sv rm1 wo env) as Hd1
        by (apply elem_of_entries; by exists name, v).
      destruct (writable d1) eqn:Hwd.
      * right. exists d1. split; [|done].
        apply list_elem_of_In, List.filter_In. split; [by apply list_elem_of_In|done].
      * left. unfold writable, d1, Engine.classify in Hwd. simpl in Hwd.
        destruct wo; simpl in Hwd;
          destruct (rm1 !! name) as [rv|] eqn:Hrv; simpl in Hwd; try done.
        case_bool_decide as Heq; simpl in Hwd; [|done]. subst rv.
        rewrite <- (Hlvals _ _ _ _ eq_refl Hl1). exact Hrv.
  - intros name Hnone. apply foldl_insert_lookup_other.
    intros d Hdin Hname. apply list_elem_of_In, List.filter_In in Hdin as [Hdin _].
    apply list_elem_of_In, elem_of_entries in Hdin as (n' & v' & Hin' & Hv' & Hne' & ->).
    simpl in Hname. subst n'. apply Hne'. by apply (Hnone v').
Qed.

Lemma map_fold_insert_copy {V} (m : gmap string V) :
  map_fold (fun k v c => <[k := v]> c) ∅ m = m.
Proof. rewrite map_fold_insert_union. apply (right_id_L ∅ (∪)). Qed.

(** The one error that [createProvider] adds by itself is the missing
    credential, named after the target: it is returned exactly when the
    platform takes a token from an environment variable, that variable is
    empty and the target's configuration holds no token.  In every other
    case [createProvider] returns what the registry's [Create] returns, on
    a configuration that agrees with the target's on every key but
    [_resolved_token]. *)
Theorem createProvider_outcome (target : Target.t) :
  let info := provider.Get registry (Target.Type_ target) in
  let missing :=
    negb (provider.info_SdkAuth info)
    && negb (bool_decide (provider.info_EnvVar info = ""%string))
    && bool_decide (Getenv (provider.info_EnvVar info) = ""%string)
    && bool_decide (auth.getTokenFromConfig (Target.Config target) = ""%string) in
  if missing then
    createProvider' target =
    Err (wrapError ("authentication failed for " +:+ Target.Name target
                    +:+ ": credentials not found") auth.ErrCredentialsNotFound)
  else
    exists cfg,
      createProvider' target = provider.Create registry (Target.Type_ target) cfg
      /\ forall k, k <> "_resolved_token"%string ->
           gomap.index cfg k = gomap.index (Target.Config target) k.
Proof.
  cbv zeta. unfold Engine.createProvider, auth.ResolveCredentials.
  assert (provider.EnvVarFor registry (Target.Type_ target)
          = provider.info_EnvVar (provider.Get registry (Target.Type_ target))) as ->.
  { unfold provider.EnvVarFor, provider.info_EnvVar.
    by destruct (provider.Get registry (Target.Type_ target)). }
  destruct (provider.info_SdkAuth _); simpl; [by eexists|].
  case_bool_decide as Hvar; simpl; [by eexists|].
  case_bool_decide as Henv; simpl.
  - case_bool_decide as Htok; simpl.
    + unfold Errorf_w. by rewrite !string_append_assoc.
    + eexists. split; [reflexivity|]. intros k Hk. unfold gomap.index. simpl.
      by rewrite lookup_insert_ne, map_fold_insert_copy.
  - eexists. split; [reflexivity|]. intros k Hk. unfold gomap.index. simpl.
    by rewrite lookup_insert_ne, map_fold_insert_copy.
Qed.


(** The summary of a dry run is the count by classification of the diff:
    a dry-run [Sync] returns, in its four counters, the numbers that
    [CountByType] holds for the diff of [Preview]; and [HasChanges] is
    false for that diff exactly when the three counters of pending writes
    are zero. *)
Theorem Sync_dry_run_CountByType
    (names : list string) (src : source.Source) (target : Target.t)
    (env : string) (opts : @Engine.SyncOptions U) (w wp : World')
    (diff : TargetDiff.t) :
  Engine.DryRun opts = true ->
  Preview' names src target env w = (Ok diff, wp) ->
  let counts ty := default 0%Z (TargetDiff.CountByType diff !! ty) in
  exists r,
    Sync' names src target env opts w = (Ok r, wp)
    /\ Engine.Added r = counts DiffAdd
    /\ Engine.Changed r = counts DiffChange
    /\ Engine.Unknown r = counts DiffUnknown
    /\ Engine.Unchanged r = counts DiffUnchanged
    /\ (TargetDiff.HasChanges diff = false <->
        Engine.Added r = 0%Z /\ Engine.Changed r = 0%Z /\ Engine.Unknown r = 0%Z).
Proof.
  intros Hd Hp. cbv zeta.
  assert (forall ty, default 0%Z (TargetDiff.CountByType diff !! ty)
                     = Count (has_type ty) (TargetDiff.Diffs diff)) as Hc.
  { intros ty. destruct (CountByType_fold (TargetDiff.Diffs diff) ty ∅) as [H _].
    cbv zeta in H. unfold TargetDiff.CountByType.
    rewrite H, lookup_empty. simpl. lia. }
  rewrite (Sync_dry _ _ _ _ _ _ _ _ _ _ _ _ Hd Hp). eexists. split; [reflexivity|].
  pose proof (tally_fold (TargetDiff.Diffs diff)
    (Engine.mkSyncResult (Target.Name target) env 0 0 0 0 0 [])) as T.
  cbv zeta in T. destruct T as (_ & _ & T1 & T2 & T3 & T4 & _).
  rewrite T1, T2, T3, T4, !Hc. simpl.
  split; [done|]. split; [done|]. split; [done|]. split; [done|].
  pose proof (Preview_no_remove _ _ _ _ _ _ _ _ _ _ _ Hp) as Hrm.
  pose proof (Count_types_total (TargetDiff.Diffs diff)) as Htot.
  pose proof (Count_nonneg (has_type DiffAdd) (TargetDiff.Diffs diff)).
  pose proof (Count_nonneg (has_type DiffChange) (TargetDiff.Diffs diff)).
  pose proof (Count_nonneg (has_type DiffUnknown) (TargetDiff.Diffs diff)).
  unfold TargetDiff.HasChanges. rewrite has_changes_false. split.
  - intros Hall. destruct (filter_writable_unchanged _ Hall) as [_ Hu]. lia.
  - intros (Ha & Hch & Hk). apply Forall_forall. intros d Hin.
    assert (forall ty, Count (has_type ty) (TargetDiff.Diffs diff) = 0%Z ->
                       SecretDiff.Type_ d <> ty) as Hnot.
    { intros ty Hz Hty. apply Count_zero_Forall in Hz.
      rewrite Forall_forall in Hz. specialize (Hz d Hin).
      unfold has_type in Hz. by rewrite bool_decide_eq_true_2 in Hz. }
    pose proof (Hnot DiffAdd Ha) as N1. pose proof (Hnot DiffChange Hch) as N2.
    pose proof (Hnot DiffUnknown Hk) as N3. pose proof (Hnot DiffRemove Hrm) as N4.
    by destruct (SecretDiff.Type_ d).
Qed.

End EngineMore.
Lemma Preview_entries_witness :
  let pre := mockPreview mock.names mock.src
               (mock.target "mock" ["*_KEY"]%string ["STRIPE_*"]%string)
               "development" (mock.world mock.remote0) in
  Forall (fun d =>
            filter.ShouldSyncSecret glob.Match (SecretDiff.Name d)
              (mock.target "mock" ["*_KEY"]%string ["STRIPE_*"]%string) = true
            /\ SecretDiff.NewValue d <> ""%string)
    (TargetDiff.Diffs (diff_of pre.1))
  /\ TargetDiff.TargetName (diff_of pre.1) = "test-target"%string.
Proof.
  intros pre.
  destruct (Preview_entries (U := unit) glob.Match mock.registry mock.Getenv
              mock.ExpandEnv mock.names mock.src
              (mock.target "mock" ["*_KEY"]%string ["STRIPE_*"]%string)
              "development" (mock.world mock.remote0) pre.2 (diff_of pre.1)
              (mock.newMockProvider None None)
              (mock.List "development" mock.remote0).1.1 mock.remote0)
    as (H & _ & Hn & _).
  - reflexivity.
  - vm_compute. reflexivity.
  - vm_compute. reflexivity.
  - split; [|exact Hn]. apply Forall_forall. intros d Hd.
    destruct (H d Hd) as (_ & Hok & _ & _ & Hne & _). by split.
Defined.

Lemma Sync_no_redundant_write_witness :
  exists new,
    Engine.calls
      (mockSync mock.names mock.src (mock.target "mock" [] []) "development"
         (mock.opts false) (mock.world mock.remote0)).2
    = Engine.calls (mock.world mock.remote0) ++ new
    /\ forall name value env' err,
         Engine.CallSet name value env' err ∈ new ->
         Engine.build_remoteMap (mock.List "development" mock.remote0).1.1 !! name
         <> Some value.
Proof.
  apply (Sync_no_redundant_write (U := unit) glob.Match mock.registry mock.Getenv
           mock.ExpandEnv mock.names mock.src (mock.target "mock" [] [])
           "development" (mock.opts false) (mock.world mock.remote0)
           (mock.newMockProvider None None) _ mock.remote0).
  - reflexivity.
  - reflexivity.
  - vm_compute. reflexivity.
Defined.

Lemma Sync_without_changes_witness :
  let remote : mock.Secrets :=
    <["development"%string := <["API_KEY"%string := "v2"%string]> ∅]> ∅ in
  let pre := mockPreview ["API_KEY"; "EMPTY"]%string mock.src
               (mock.target "mock" [] []) "development" (mock.world remote) in
  exists r w',
    mockSync ["API_KEY"; "EMPTY"]%string mock.src (mock.target "mock" [] [])
      "development" (mock.opts false) (mock.world remote) = (Ok r, w')
    /\ Engine.calls w' = Engine.calls pre.2
    /\ Engine.Unchanged r = Z.of_nat (length (TargetDiff.Diffs (diff_of pre.1))).
Proof.
  intros remote pre.
  destruct (Sync_without_changes (U := unit) glob.Match mock.registry mock.Getenv
              mock.ExpandEnv ["API_KEY"; "EMPTY"]%string mock.src
              (mock.target "mock" [] []) "development" (mock.opts false)
              (mock.world remote) pre.2 (diff_of pre.1))
    as (r & w' & Hs & Hc & _ & Hu & _).
  - reflexivity.
  - vm_compute. reflexivity.
  - vm_compute. reflexivity.
  - exists r, w'. split; [exact Hs|]. split; [exact Hc|exact Hu].
Defined.

Lemma Sync_progress_observational_witness :
  let record : @Engine.ProgressCallback (list Engine.ProgressEvent) :=
    fun event seen => seen ++ [event] in
  let w := @Engine.mkWorld mock.Secrets (list Engine.ProgressEvent) mock.remote0 [] [] in
  let run opts :=
    @Engine.Sync mock.Secrets (list Engine.ProgressEvent) glob.Match mock.registry
      mock.Getenv mock.ExpandEnv mock.names mock.src (mock.target "mock-flaky" [] [])
      "development" opts w in
  (run (Engine.mkSyncOptions false "test" (Some record))).1
  = (run (Engine.mkSyncOptions false "test" None)).1.
Proof.
  intros record w run.
  apply (Sync_progress_observational glob.Match mock.registry mock.Getenv
           mock.ExpandEnv mock.names mock.src (mock.target "mock-flaky" [] [])
           "development" (Engine.mkSyncOptions false "test" (Some record))
           (Engine.mkSyncOptions false "test" None) w).
  reflexivity.
Defined.

(** The callback is called before and after each of the two writes. *)
Example Sync_progress_events :
  let record : @Engine.ProgressCallback (list Engine.ProgressEvent) :=
    fun event seen => seen ++ [event] in
  let w := @Engine.mkWorld mock.Secrets (list Engine.ProgressEvent) mock.remote0 [] [] in
  (fun e => (Engine.SecretName e, Engine.Action e, Engine.Success e)) <$>
    Engine.ui
      (@Engine.Sync mock.Secrets (list Engine.ProgressEvent) glob.Match mock.registry
         mock.Getenv mock.ExpandEnv mock.names mock.src
         (mock.target "mock-flaky" [] []) "development"
         (Engine.mkSyncOptions false "test" (Some record)) w).2
  = [("API_KEY", "change", false); ("API_KEY", "", true);
     ("STRIPE_KEY", "add", false); ("STRIPE_KEY", "", false)]%string.
Proof. vm_compute. reflexivity. Qed.

Lemma Sync_then_Pull_witness :
  let w0 := mock.world mock.remote0 in
  let w1 := (mockSync mock.names mock.src (mock.target "mock" [] []) "development"
               (mock.opts false) w0).2 in
  exists pulled w2,
    @Engine.Pull mock.Secrets unit mock.registry mock.Getenv mock.ExpandEnv
      (mock.target "mock" [] []) "development" w1 = (Ok pulled, w2)
    /\ pulled !! "API_KEY"%string = Some "v2"%string
    /\ pulled !! "EMPTY"%string = Some "old"%string.
Proof.
  intros w0 w1.
  destruct (Sync_then_Pull glob.Match mock.registry mock.Getenv mock.ExpandEnv
              mock.names mock.src (mock.target "mock" [] []) "development"
              (mock.opts false) w0 w1
              (result_of (mockSync mock.names mock.src (mock.target "mock" [] [])
                            "development" (mock.opts false) w0).1)
              (mock.newMockProvider None None) mock_view)
    as (pulled & w2 & Hp & Hlocal & Hframe).
  - reflexivity.
  - reflexivity.
  - apply mock_contract.
  - vm_compute. reflexivity.
  - vm_compute. reflexivity.
  - reflexivity.
  - exists pulled, w2. split; [exact Hp|]. split.
    + apply Hlocal; [apply list_elem_of_In; vm_compute; tauto
                    | vm_compute; reflexivity | discriminate].
    + rewrite Hframe; [vm_compute; reflexivity|].
      intros v _ Hv. vm_compute in Hv. by injection Hv as <-.
Defined.

Lemma Sync_dry_run_CountByType_witness :
  let pre := mockPreview mock.names mock.src (mock.target "mock-writeonly" [] [])
               "development" (mock.world mock.remote0) in
  exists r,
    mockSync mock.names mock.src (mock.target "mock-writeonly" [] []) "development"
      (mock.opts true) (mock.world mock.remote0) = (Ok r, pre.2)
    /\ Engine.Unknown r
       = default 0%Z (TargetDiff.CountByType (diff_of pre.1) !! DiffUnknown).
Proof.
  intros pre.
  destruct (Sync_dry_run_CountByType (U := unit) glob.Match mock.registry mock.Getenv
              mock.ExpandEnv mock.names mock.src (mock.target "mock-writeonly" [] [])
              "development" (mock.opts true) (mock.world mock.remote0) pre.2
              (diff_of pre.1))
    as (r & Hs & _ & _ & Hk & _).
  - reflexivity.
  - vm_compute. reflexivity.
  - exists r. split; [exact Hs|exact Hk].
Defined.

Example CheckAuth_tests :
  let check type cfg :=
    auth.Authenticated
      (@Engine.CheckAuth mock.Secrets mock.registry mock.Getenv mock.ExpandEnv
         (Target.mk "t" type None (SecretsFilter.mk [] []) cfg)) in
  check "mock-token"%string (Some (<["token"%string := AnyString "tok1"]> ∅)) = true
  /\ check "mock-token"%string None = false
  /\ check "mock"%string None = false.
Proof. repeat split. Qed.

(** ** More on sources and credentials *)

(** [CombinedSource.Get] returns the first non-empty value in the order of
    the sources, and the empty string only if every source returns it. *)
Theorem combined_Get_first (before after : list source.Source)
    (src : source.Source) (name : string) :
  Forall (fun s => source.Get s name = ""%string) before ->
  (source.Get src name <> ""%string ->
   source.Get (source.CombinedSource (before ++ src :: after)) name
   = source.Get src name)
  /\ (source.Get src name = ""%string ->
      Forall (fun s => source.Get s name = ""%string) after ->
      source.Get (source.CombinedSource (before ++ src :: after)) name = ""%string).
Proof.
  simpl. intros Hbefore.
  assert (forall l, Forall (fun s => source.Get s name = ""%string) l ->
                    source.combined_Get l name = ""%string) as Hnone.
  { induction 1 as [|s l Hs _ IH]; simpl; [done|]. by rewrite Hs. }
  induction Hbefore as [|s l Hs _ [I1 I2]]; simpl.
  - split.
    + intros Hne. by rewrite bool_decide_eq_false_2.
    + intros He Hafter. rewrite He. simpl. by apply Hnone.
  - rewrite Hs. simpl. by split.
Qed.

Lemma combined_Get_first_witness :
  let file := source.tableSource ".env.test" (<["API_KEY"%string := ""%string]> ∅) in
  let env := source.tableSource "environment"
               (<["API_KEY"%string := "from-env"%string]> ∅) in
  source.Get (source.CombinedSource ([file] ++ env :: [])) "API_KEY"
  = "from-env"%string.
Proof.
  intros file env.
  destruct (combined_Get_first [file] [] env "API_KEY") as [H _].
  - constructor; [reflexivity|constructor].
  - rewrite H; [reflexivity|discriminate].
Defined.

(** On the same sources [GetAll] answers with the first source that has
    the name, even with an empty value. *)
Example combined_Get_GetAll_differ :
  let file := source.tableSource ".env.test" (<["API_KEY"%string := ""%string]> ∅) in
  let env := source.tableSource "environment"
               (<["API_KEY"%string := "from-env"%string]> ∅) in
  source.GetAll (source.CombinedSource [file; env]) ["API_KEY"%string]
    !! "API_KEY"%string = Some ""%string.
Proof. vm_compute. reflexivity. Qed.

Section CredentialProps.

Context {W : Type}.
Variable registry : gmap string (provider.ProviderInfo W).
Variable Getenv : string -> string.
Variable ExpandEnv : string -> string.

(** The order in which credentials are resolved: a non-empty environment
    variable of the platform first; else the [token] of the configuration,
    else its [deploy_key], else its [api_key], skipping entries that are
    missing, not strings or empty, and expanding the one taken; with none
    of them, the error [ErrCredentialsNotFound]. *)
Theorem ResolveCredentials_order (providerType : string) (config : gomap.t any) :
  let envVar := provider.EnvVarFor registry providerType in
  let field k := (assert_string (gomap.index config k)).1 in
  let resolved := auth.ResolveCredentials registry Getenv ExpandEnv providerType config in
  (envVar <> ""%string -> Getenv envVar <> ""%string ->
   resolved = Ok (auth.mkCredentials (Getenv envVar) "env"))
  /\ (envVar = ""%string \/ Getenv envVar = ""%string ->
      (field "token"%string <> ""%string ->
       resolved = Ok (auth.mkCredentials (ExpandEnv (field "token"%string)) "config"))
      /\ (field "token"%string = ""%string ->
          field "deploy_key"%string <> ""%string ->
          resolved
          = Ok (auth.mkCredentials (ExpandEnv (field "deploy_key"%string)) "config"))
      /\ (field "token"%string = ""%string ->
          field "deploy_key"%string = ""%string ->
          field "api_key"%string <> ""%string ->
          resolved
          = Ok (auth.mkCredentials (ExpandEnv (field "api_key"%string)) "config"))
      /\ (field "token"%string = ""%string ->
          field "deploy_key"%string = ""%string ->
          field "api_key"%string = ""%string ->
          resolved = Err auth.ErrCredentialsNotFound)).
Proof.
  cbv zeta. unfold auth.ResolveCredentials. split.
  - intros H1 H2.
    rewrite (bool_decide_eq_false_2 _ H1), (bool_decide_eq_false_2 _ H2).
    reflexivity.
  - intros Hno.
    assert (negb (bool_decide (provider.EnvVarFor registry providerType = ""%string))
            && negb (bool_decide
                       (Getenv (provider.EnvVarFor registry providerType) = ""%string))
            = false) as ->.
    { destruct Hno as [H|H]; rewrite (bool_decide_eq_true_2 _ H); simpl; [done|].
      apply andb_false_r. }
    unfold auth.getTokenFromConfig, auth.firstToken.
    destruct (assert_string (gomap.index config "token")) as [t okt] eqn:Ht.
    destruct (assert_string (gomap.index config "deploy_key")) as [d okd] eqn:Hd.
    destruct (assert_string (gomap.index config "api_key")) as [a oka] eqn:Ha.
    assert (forall o v ok, assert_string o = (v, ok) -> ok = false -> v = ""%string)
      as Hzero.
    { intros o v ok Ho ->. unfold assert_string in Ho.
      destruct o as [[]|]; congruence. }
    simpl.
    destruct okt, okd, oka;
      try (pose proof (Hzero _ _ _ Ht eq_refl)); try (pose proof (Hzero _ _ _ Hd eq_refl));
      try (pose proof (Hzero _ _ _ Ha eq_refl)); subst; simpl;
      repeat split; intros; repeat (case_bool_decide; simpl; try done); congruence.
Qed.

End CredentialProps.

Lemma ResolveCredentials_order_witness :
  @auth.ResolveCredentials mock.Secrets mock.registry mock.Getenv mock.ExpandEnv
    "mock-token" (Some (<["deploy_key"%string := AnyString "prod:abc"]>
                       (<["token"%string := AnyInt 7]> ∅)))
  = Ok (auth.mkCredentials "prod:abc" "config").
Proof.
  destruct (ResolveCredentials_order mock.registry mock.Getenv mock.ExpandEnv
              "mock-token"
              (Some (<["deploy_key"%string := AnyString "prod:abc"]>
                    (<["token"%string := AnyInt 7]> ∅)))) as [_ H].
  destruct (H (or_intror eq_refl)) as (_ & Hdeploy & _).
  apply Hdeploy; [reflexivity|discriminate].
Defined.
